(** * Bulk DOCX-to-PDF service: the worker and the finalizer

    A shallow embedding of [app/models.py], [app/tasks.py] and
    [app/finalize_task.py].  The two database tables are lists of rows, an
    ORM query is a [filter] over the rows, and a commit rewrites the columns
    the task assigned on the rows carrying the primary key of the object.
    The storage directory is a finite map from paths to contents.  What the
    tasks do to the outside (log records, the converter subprocess, the
    enqueueing of the finalizer) is collected in a list of events. *)

From Stdlib Require Import ZArith Ascii String List.
From stdpp Require Import gmap strings list fin_maps pretty.

Open Scope Z_scope.
Open Scope string_scope.
Open Scope list_scope.

(** ** [app/models.py] *)

Module JobStatus.
Inductive t := PENDING | PROCESSING | COMPLETED | FAILED | PARTIAL_SUCCESS.
#[global] Instance eq_dec : EqDecision t.
Proof. solve_decision. Defined.
End JobStatus.

Module FileStatus.
Inductive t := PENDING | PROCESSING | COMPLETED | FAILED.
#[global] Instance eq_dec : EqDecision t.
Proof. solve_decision. Defined.
End FileStatus.

Module Job.
Record t := mk { id : Z; status : JobStatus.t; created_at : Z }.
Definition set_status (s : JobStatus.t) (j : t) : t :=
  {| id := id j; status := s; created_at := created_at j |}.
End Job.

Module JobFile.
Record t := mk {
  id : Z;
  job_id : Z;
  filename : string;
  status : FileStatus.t;
  error_message : option string
}.
Definition set_status (s : FileStatus.t) (f : t) : t :=
  {| id := id f; job_id := job_id f; filename := filename f;
     status := s; error_message := error_message f |}.
Definition set_error_message (m : string) (f : t) : t :=
  {| id := id f; job_id := job_id f; filename := filename f;
     status := status f; error_message := Some m |}.
End JobFile.

(** ** The store, the storage directory, the events *)

Record Db := mkDb { jobs : list Job.t; job_files : list JobFile.t }.

(** A path of the storage directory holds plain data or an archive, the
    latter as the list of its members: the path that was read and the name
    it got in the archive. *)
Inductive Content :=
| Data
| ZipArchive (members : list (string * string)).

Record World := mkWorld { db : Db; fs : gmap string Content }.

Inductive Level := INFO | WARNING | ERROR.

Inductive Event :=
| Log (lvl : Level)
| Run (argv : list string) (timeout : Z)
| Delay (job_id : Z).

#[global] Instance Level_eq_dec : EqDecision Level.
Proof. solve_decision. Defined.
#[global] Instance Event_eq_dec : EqDecision Event.
Proof. solve_decision. Defined.

(** [settings.FILE_STORAGE_PATH], and [os.path.abspath], which depends on
    the working directory of the worker process. *)
Record Env := mkEnv { FILE_STORAGE_PATH : string; abspath : string → string }.

(** ** The pieces of [os.path] the tasks call *)

Definition exists_ (p : string) (fs : gmap string Content) : bool :=
  bool_decide (is_Some (fs !! p)).

Definition starts_with_slash (s : string) : bool :=
  match s with
  | String c _ => bool_decide (c = "/"%char)
  | EmptyString => false
  end.

Fixpoint ends_with_slash (s : string) : bool :=
  match s with
  | EmptyString => false
  | String c EmptyString => bool_decide (c = "/"%char)
  | String _ r => ends_with_slash r
  end.

(** [os.path.join a b] on a POSIX system. *)
Definition path_join (a b : string) : string :=
  if starts_with_slash b then b
  else if bool_decide (a = "") || ends_with_slash a then a +:+ b
  else a +:+ "/" +:+ b.

(** [p.rfind(c)], with [None] for Python's [-1]. *)
Fixpoint rfind_from (c : ascii) (s : string) (i : nat) (last : option nat)
  : option nat :=
  match s with
  | EmptyString => last
  | String d r =>
      rfind_from c r (S i) (if bool_decide (d = c) then Some i else last)
  end.

Definition rfind (c : ascii) (s : string) : option nat := rfind_from c s 0 None.

(** Is there a character other than a dot in [s[lo:hi]]? *)
Definition non_dot_between (s : string) (lo hi : nat) : bool :=
  existsb (λ c, negb (bool_decide (c = "."%char)))
          (list_ascii_of_string (substring lo (hi - lo) s)).

(** [os.path.splitext p]: the extension starts at the last dot of the last
    component, unless only dots precede it there. *)
Definition splitext (p : string) : string * string :=
  let start := match rfind "/" p with Some i => S i | None => O end in
  match rfind "." p with
  | Some d =>
      if bool_decide (start ≤ d)%nat && non_dot_between p start d
      then (substring 0 d p, substring d (String.length p - d) p)
      else (p, "")
  | None => (p, "")
  end.

(** The name of the PDF the converter writes for [filename]. *)
Definition pdf_name (filename : string) : string := (splitext filename).1 +:+ ".pdf".

Definition job_dir_of (env : Env) (job_id : Z) : string :=
  path_join (FILE_STORAGE_PATH env) (pretty job_id).

(** ** Queries and commits *)

Definition get_job (job_id : Z) (d : Db) : option Job.t :=
  List.find (λ j, bool_decide (Job.id j = job_id)) (jobs d).

Definition get_file (file_id : Z) (d : Db) : option JobFile.t :=
  List.find (λ f, bool_decide (JobFile.id f = file_id)) (job_files d).

(** [job.files], the rows whose foreign key is the job. *)
Definition files_of (job_id : Z) (d : Db) : list JobFile.t :=
  filter (λ f, JobFile.job_id f = job_id) (job_files d).

Definition with_status (s : FileStatus.t) (job_id : Z) (d : Db) : list JobFile.t :=
  filter (λ f, JobFile.job_id f = job_id ∧ JobFile.status f = s) (job_files d).

Definition unfinished (job_id : Z) (d : Db) : list JobFile.t :=
  filter (λ f, JobFile.job_id f = job_id ∧
               JobFile.status f ∈ [FileStatus.PENDING; FileStatus.PROCESSING])
         (job_files d).

(** A commit after the task changed columns of one object: the rows with
    that primary key get the new columns. *)
Definition update_job (job_id : Z) (g : Job.t → Job.t) (d : Db) : Db :=
  {| jobs := (λ j, if bool_decide (Job.id j = job_id) then g j else j) <$> jobs d;
     job_files := job_files d |}.

Definition update_file (file_id : Z) (g : JobFile.t → JobFile.t) (d : Db) : Db :=
  {| jobs := jobs d;
     job_files :=
       (λ f, if bool_decide (JobFile.id f = file_id) then g f else f) <$> job_files d |}.

(** ** [app/finalize_task.py] *)

(** Where writing the archive raises, if it does: on opening it, or on the
    [k]-th call of [zipf.write] (counted from 0). *)
Inductive ZipFault := NoFault | OpenFails | WriteFails (k : nat).

(** The loop over [completed_files] inside the [with] block: the members
    written so far, the warnings logged, and whether a write raised. *)
Fixpoint write_members (job_dir : string) (fs : gmap string Content)
    (fault : option nat) (completed_files : list JobFile.t)
    (written : list (string * string)) (ev : list Event)
  : list (string * string) * list Event * bool :=
  match completed_files with
  | [] => (written, ev, false)
  | file_record :: rest =>
      let pdf_filename := pdf_name (JobFile.filename file_record) in
      let pdf_path := path_join job_dir pdf_filename in
      if exists_ pdf_path fs then
        match fault with
        | Some O => (written, ev, true)
        | _ => write_members job_dir fs (pred <$> fault) rest
                 (written ++ [(pdf_path, pdf_filename)]) ev
        end
      else write_members job_dir fs fault rest written (ev ++ [Log WARNING])
  end.

Definition write_fault (fault : ZipFault) : option nat :=
  match fault with WriteFails k => Some k | _ => None end.

(** Line 93, [output_zip]. *)
Definition output_zip_of (env : Env) (job_id : Z) : string :=
  path_join (job_dir_of env job_id) "converted_files.zip".

(** Lines 102-124: the [try] around the archive.  Opening with mode ['w']
    truncates the archive; leaving the [with] block, also by an exception,
    closes it with the members written so far.  [job_id] is [job.id].  The
    result is the storage directory, the log records, and whether the
    [except] branch ran. *)
Definition build_zip (env : Env) (fault : ZipFault) (job_id : Z)
    (completed_files : list JobFile.t) (fs : gmap string Content)
  : gmap string Content * list Event * bool :=
  let job_dir := job_dir_of env job_id in
  let output_zip := output_zip_of env job_id in
  match fault with
  | OpenFails => (fs, [Log ERROR], true)
  | _ =>
      let '(members, ev, raised) :=
        write_members job_dir (<[output_zip := ZipArchive []]> fs)
          (write_fault fault) completed_files [] [] in
      (<[output_zip := ZipArchive members]> fs,
       ev ++ [Log (if raised then ERROR else INFO)], raised)
  end.

(** Lines 79-87. *)
Definition aggregate (failed_count total_count : nat) : JobStatus.t :=
  if bool_decide (failed_count = total_count) && bool_decide (0 < total_count)%nat
  then JobStatus.FAILED
  else if bool_decide (0 < failed_count)%nat then JobStatus.PARTIAL_SUCCESS
  else JobStatus.COMPLETED.

Definition wants_zip (s : JobStatus.t) : bool :=
  bool_decide (s ∈ [JobStatus.COMPLETED; JobStatus.PARTIAL_SUCCESS]).

(** Lines 89-124: the archive is attempted for a status that wants one and
    a non-empty list of completed files. *)
Definition bundle (env : Env) (fault : ZipFault) (job_id : Z) (s : JobStatus.t)
    (completed_files : list JobFile.t) (fs : gmap string Content)
  : gmap string Content * list Event * bool :=
  if wants_zip s then
    match completed_files with
    | [] => (fs, [], false)
    | _ :: _ => build_zip env fault job_id completed_files fs
    end
  else (fs, [], false).

(** One invocation of the task, run without interference: the world it
    leaves, the events, and the value it returns. *)
Definition finalize_job_task (env : Env) (fault : ZipFault) (job_id : Z) (w : World)
  : World * list Event * option string :=
  match get_job job_id (db w) with
  | None => (w, [Log ERROR], Some "Job not found")
  | Some job =>
      let pending_files := length (unfinished job_id (db w)) in
      if bool_decide (0 < pending_files)%nat
      then (w, [Log INFO], Some "Pending files")
      else
        let failed_count := length (with_status FileStatus.FAILED job_id (db w)) in
        let total_count := length (files_of (Job.id job) (db w)) in
        let s := aggregate failed_count total_count in
        let completed_files := with_status FileStatus.COMPLETED job_id (db w) in
        let '(fs', ev, _) := bundle env fault (Job.id job) s completed_files (fs w) in
        ({| db := update_job (Job.id job) (Job.set_status s) (db w); fs := fs' |},
         ev ++ [Log INFO], None)
  end.

(** *** The same task, one store access at a time

    Between two accesses of one invocation other invocations may run.  The
    control point of an invocation carries what it holds in memory. *)
Inductive Pc :=
| Start
| Loaded (job : Job.t)
| NonePending (job : Job.t)
| Counted (job : Job.t) (failed_count : nat)
| Decided (job : Job.t) (s : JobStatus.t)
| Selected (job : Job.t) (s : JobStatus.t) (completed_files : list JobFile.t)
| Bundled (job : Job.t) (s : JobStatus.t)
| Returned (ret : option string).

Definition fin_step (env : Env) (fault : ZipFault) (job_id : Z) (pc : Pc) (w : World)
  : Pc * World * list Event :=
  match pc with
  | Start =>
      match get_job job_id (db w) with
      | None => (Returned (Some "Job not found"), w, [Log ERROR])
      | Some job => (Loaded job, w, [])
      end
  | Loaded job =>
      if bool_decide (0 < length (unfinished job_id (db w)))%nat
      then (Returned (Some "Pending files"), w, [Log INFO])
      else (NonePending job, w, [])
  | NonePending job =>
      (Counted job (length (with_status FileStatus.FAILED job_id (db w))), w, [])
  | Counted job failed_count =>
      (Decided job (aggregate failed_count (length (files_of (Job.id job) (db w)))),
       w, [])
  | Decided job s =>
      if wants_zip s
      then (Selected job s (with_status FileStatus.COMPLETED job_id (db w)), w, [])
      else (Bundled job s, w, [])
  | Selected job s completed_files =>
      match completed_files with
      | [] => (Bundled job s, w, [])
      | _ :: _ =>
          let '(fs', ev, _) := build_zip env fault (Job.id job) completed_files (fs w) in
          (Bundled job s, {| db := db w; fs := fs' |}, ev)
      end
  | Bundled job s =>
      (Returned None,
       {| db := update_job (Job.id job) (Job.set_status s) (db w); fs := fs w |},
       [Log INFO])
  | Returned ret => (Returned ret, w, [])
  end.

Fixpoint fin_run (n : nat) (env : Env) (fault : ZipFault) (job_id : Z)
    (pc : Pc) (w : World) (ev : list Event) : Pc * World * list Event :=
  match n with
  | O => (pc, w, ev)
  | S n =>
      let '(pc', w', e) := fin_step env fault job_id pc w in
      fin_run n env fault job_id pc' w' (ev ++ e)
  end.

(** Invocations of the task for one job that share the world: each entry of
    the schedule names the invocation that takes the next step. *)
Fixpoint interleave (env : Env) (job_id : Z) (schedule : list nat)
    (pool : list (ZipFault * Pc)) (w : World) : list (ZipFault * Pc) * World :=
  match schedule with
  | [] => (pool, w)
  | i :: rest =>
      match pool !! i with
      | None => interleave env job_id rest pool w
      | Some (fault, pc) =>
          let '(pc', w', _) := fin_step env fault job_id pc w in
          interleave env job_id rest (<[i := (fault, pc')]> pool) w'
      end
  end.

(** ** [app/tasks.py] *)

(** What [subprocess.run] does: it returns a completed process, or raises
    [TimeoutExpired], or raises something else (whose [str] is the
    message).  The converter may write into the storage directory. *)
Inductive RunResult :=
| CompletedProcess (returncode : Z) (stderr : string)
| TimeoutExpired
| Raised (message : string).

Definition Subprocess : Type :=
  list string → Z → gmap string Content → RunResult * gmap string Content.

(** The two assignments of an [except] branch, then its commit. *)
Definition mark_failed (file_id : Z) (message : string) (d : Db) : Db :=
  update_file file_id
    (λ f, JobFile.set_error_message message (JobFile.set_status FileStatus.FAILED f)) d.

Definition mark_completed (file_id : Z) (d : Db) : Db :=
  update_file file_id (JobFile.set_status FileStatus.COMPLETED) d.

(** Lines 57-65: the file goes to PROCESSING, a PENDING job too. *)
Definition mark_processing (file_record : JobFile.t) (d : Db) : Db :=
  let d1 := update_file (JobFile.id file_record)
              (JobFile.set_status FileStatus.PROCESSING) d in
  match get_job (JobFile.job_id file_record) d with
  | Some job =>
      if bool_decide (Job.status job = JobStatus.PENDING)
      then update_job (Job.id job) (Job.set_status JobStatus.PROCESSING) d1
      else d1
  | None => d1
  end.

(** Lines 81-132: the inner [try] with its two [except] branches. *)
Definition record_outcome (file_id : Z) (output_path : string) (result : RunResult)
    (fs : gmap string Content) (d : Db) : Db * Level :=
  match result with
  | CompletedProcess returncode stderr =>
      if bool_decide (returncode ≠ 0)
      then (mark_failed file_id ("LibreOffice conversion failed: " +:+ stderr) d, ERROR)
      else if negb (exists_ output_path fs)
      then (mark_failed file_id "Conversion failed: Output PDF not created" d, ERROR)
      else (mark_completed file_id d, INFO)
  | TimeoutExpired =>
      (mark_failed file_id "Conversion timeout (exceeded 60 seconds)" d, ERROR)
  | Raised message => (mark_failed file_id message d, ERROR)
  end.

Definition input_path_of (env : Env) (file_record : JobFile.t) : string :=
  path_join (job_dir_of env (JobFile.job_id file_record)) (JobFile.filename file_record).

Definition output_path_of (env : Env) (file_record : JobFile.t) : string :=
  path_join (job_dir_of env (JobFile.job_id file_record))
            (pdf_name (JobFile.filename file_record)).

Definition libreoffice_argv (env : Env) (file_record : JobFile.t) : list string :=
  ["libreoffice"; "--headless"; "--convert-to"; "pdf"; "--outdir";
   abspath env (job_dir_of env (JobFile.job_id file_record));
   abspath env (input_path_of env file_record)].

(** One invocation of the task: the world it leaves, the events, and the
    value it returns. *)
Definition convert_file_task (env : Env) (run : Subprocess) (file_id : Z) (w : World)
  : World * list Event * option string :=
  match get_file file_id (db w) with
  | None => (w, [Log ERROR], Some "File not found")
  | Some file_record =>
      let d := mark_processing file_record (db w) in
      if negb (exists_ (input_path_of env file_record) (fs w))
      then
        (* FileNotFoundError, raised before the inner [try]: the outer
           [except] logs it *)
        ({| db := d; fs := fs w |}, [Log ERROR], None)
      else
        let argv := libreoffice_argv env file_record in
        let '(result, fs') := run argv 60 (fs w) in
        let '(d', lvl) :=
          record_outcome (JobFile.id file_record) (output_path_of env file_record)
            result fs' d in
        ({| db := d'; fs := fs' |},
         [Run argv 60; Log lvl; Delay (JobFile.job_id file_record)], None)
  end.

(** *** The same task, one commit at a time

    The commit of line 65 shows the file as PROCESSING to every other task
    before the converter runs; the second commit (line 116, 125 or 132)
    records the outcome on the tables as they are then. *)
Inductive WorkerPc :=
| Fetching
| Converting (file_record : JobFile.t)
| Finished (ret : option string).

Definition conv_step (env : Env) (run : Subprocess) (file_id : Z) (pc : WorkerPc)
    (w : World) : WorkerPc * World * list Event :=
  match pc with
  | Fetching =>
      match get_file file_id (db w) with
      | None => (Finished (Some "File not found"), w, [Log ERROR])
      | Some file_record =>
          (Converting file_record,
           {| db := mark_processing file_record (db w); fs := fs w |}, [])
      end
  | Converting file_record =>
      if negb (exists_ (input_path_of env file_record) (fs w))
      then (Finished None, w, [Log ERROR])
      else
        let argv := libreoffice_argv env file_record in
        let '(result, fs') := run argv 60 (fs w) in
        let '(d', lvl) :=
          record_outcome (JobFile.id file_record) (output_path_of env file_record)
            result fs' (db w) in
        (Finished None, {| db := d'; fs := fs' |},
         [Run argv 60; Log lvl; Delay (JobFile.job_id file_record)])
  | Finished ret => (Finished ret, w, [])
  end.

(** ** [app/schemas.py] and the two read routes of [app/routers/jobs.py] *)

Module JobFileResponse.
Record t := mk {
  id : Z;
  filename : string;
  status : FileStatus.t;
  error_message : option string
}.
End JobFileResponse.

Module JobDetailResponse.
Record t := mk {
  id : Z;
  status : JobStatus.t;
  created_at : Z;
  files : list JobFileResponse.t;
  download_url : option string
}.
Definition set_download_url (u : string) (r : t) : t :=
  {| id := id r; status := status r; created_at := created_at r;
     files := files r; download_url := Some u |}.
End JobDetailResponse.

Inductive FileResponse :=
| mkFileResponse (path : string) (filename : string) (media_type : string).

(** What a route hands back: its value, or the [HTTPException] it raises. *)
Inductive Http (A : Type) :=
| Response (a : A)
| HTTPException (status_code : Z) (detail : string).
Arguments Response {A} a.
Arguments HTTPException {A} status_code detail.

Module Router.

(** [JobDetailResponse.model_validate(job)], which reads [job.files]. *)
Definition model_validate (job : Job.t) (d : Db) : JobDetailResponse.t :=
  {| JobDetailResponse.id := Job.id job;
     JobDetailResponse.status := Job.status job;
     JobDetailResponse.created_at := Job.created_at job;
     JobDetailResponse.files :=
       (λ f, JobFileResponse.mk (JobFile.id f) (JobFile.filename f)
               (JobFile.status f) (JobFile.error_message f))
       <$> files_of (Job.id job) d;
     JobDetailResponse.download_url := None |}.

(** [GET /api/v1/jobs/{job_id}/download], lines 105-124. *)
Definition download_job_result (env : Env) (job_id : Z) (w : World)
  : Http FileResponse :=
  match get_job job_id (db w) with
  | None => HTTPException 404 "Job not found"
  | Some job =>
      if negb (bool_decide
                 (Job.status job ∈ [JobStatus.COMPLETED; JobStatus.PARTIAL_SUCCESS]))
      then HTTPException 400 "Job is not ready for download"
      else
        let job_dir := job_dir_of env (Job.id job) in
        let zip_path := path_join job_dir "converted_files.zip" in
        if negb (exists_ zip_path (fs w))
        then HTTPException 404 "Result file not found"
        else Response (mkFileResponse zip_path
                         ("job_" +:+ pretty job_id +:+ "_converted.zip")
                         "application/zip")
  end.

(** [GET /api/v1/jobs/{job_id}], lines 88-103. *)
Definition get_job (job_id : Z) (w : World) : Http JobDetailResponse.t :=
  match get_job job_id (db w) with
  | None => HTTPException 404 "Job not found"
  | Some job =>
      let response := model_validate job (db w) in
      if bool_decide (Job.status job = JobStatus.COMPLETED)
         || bool_decide (Job.status job = JobStatus.PARTIAL_SUCCESS)
      then Response (JobDetailResponse.set_download_url
                       ("/api/v1/jobs/" +:+ pretty job_id +:+ "/download") response)
      else Response response
  end.

End Router.

(** ** Tasks run one after the other *)

Inductive Task :=
| ConvertFile (run : Subprocess) (file_id : Z)
| FinalizeJob (fault : ZipFault) (job_id : Z).

Definition run_task (env : Env) (t : Task) (w : World) : World :=
  match t with
  | ConvertFile run file_id => (convert_file_task env run file_id w).1.1
  | FinalizeJob fault job_id => (finalize_job_task env fault job_id w).1.1
  end.

(** ** Vocabulary of the statements *)

Definition file_terminal (f : JobFile.t) : Prop :=
  JobFile.status f ∈ [FileStatus.COMPLETED; FileStatus.FAILED].

Definition job_terminal (s : JobStatus.t) : Prop :=
  s ∈ [JobStatus.COMPLETED; JobStatus.FAILED; JobStatus.PARTIAL_SUCCESS].

#[global] Instance file_terminal_dec f : Decision (file_terminal f).
Proof. unfold file_terminal. apply _. Defined.

#[global] Instance job_terminal_dec s : Decision (job_terminal s).
Proof. unfold job_terminal. apply _. Defined.

(** The status the finalizer computes from the rows of a job. *)
Definition aggregate_of (job_id : Z) (d : Db) : JobStatus.t :=
  aggregate (length (with_status FileStatus.FAILED job_id d))
            (length (files_of job_id d)).

(** Calls of the finalizer for one job, one after the other. *)
Definition finalize_many (env : Env) (job_id : Z) (faults : list ZipFault) (w : World)
  : World :=
  foldl (λ w fault, (finalize_job_task env fault job_id w).1.1) w faults.

(** Invocations that have not taken a step yet. *)
Definition start_pool (faults : list ZipFault) : list (ZipFault * Pc) :=
  (λ fault, (fault, Start)) <$> faults.


(** The tables after a call of the finalizer: they do not depend on the
    storage directory nor on what happens to the archive. *)
Definition db_after (job_id : Z) (d : Db) : Db :=
  match get_job job_id d with
  | Some _ =>
      if decide (unfinished job_id d = [])
      then update_job job_id (Job.set_status (aggregate_of job_id d)) d
      else d
  | None => d
  end.

(** The status and the message the inner [try] of the worker leaves on the
    file, read off the result of the converter; no message is assigned on
    success. *)
Definition outcome_of (output_path : string) (result : RunResult)
    (fs : gmap string Content) : FileStatus.t * option string :=
  match result with
  | CompletedProcess returncode stderr =>
      if bool_decide (returncode ≠ 0)
      then (FileStatus.FAILED, Some ("LibreOffice conversion failed: " +:+ stderr))
      else if negb (exists_ output_path fs)
      then (FileStatus.FAILED, Some "Conversion failed: Output PDF not created")
      else (FileStatus.COMPLETED, None)
  | TimeoutExpired => (FileStatus.FAILED, Some "Conversion timeout (exceeded 60 seconds)")
  | Raised message => (FileStatus.FAILED, Some message)
  end.

Definition apply_outcome (o : FileStatus.t * option string) (f : JobFile.t) : JobFile.t :=
  match o.2 with
  | Some message => JobFile.set_error_message message (JobFile.set_status o.1 f)
  | None => JobFile.set_status o.1 f
  end.

(** The file has not reached a terminal status: the worker is handed it
    for the first time, or an earlier delivery stopped half way. *)
Definition not_yet_terminal (t : Task) (w : World) : Prop :=
  match t with
  | ConvertFile _ file_id =>
      ∀ f, get_file file_id (db w) = Some f → ¬ file_terminal f
  | FinalizeJob _ _ => True
  end.

(** Worlds reached by running tasks one at a time, every worker on a file
    that is not yet terminal. *)
Inductive Runs (env : Env) : World → list Task → World → Prop :=
| Runs_nil w : Runs env w [] w
| Runs_cons w t ts w' :
    not_yet_terminal t w → Runs env (run_task env t w) ts w' → Runs env w (t :: ts) w'.

(** No job holds a terminal status while one of its files is unfinished. *)
Definition consistent (d : Db) : Prop :=
  ∀ j, j ∈ jobs d → job_terminal (Job.status j) → unfinished (Job.id j) d = [].

(** What the worker does to a row of the file it was called for. *)
Definition worker_row (file_id : Z) (g : JobFile.t → JobFile.t) (f : JobFile.t)
  : JobFile.t :=
  if bool_decide (JobFile.id f = file_id) then g f else f.

(** The member of the archive for a file, and the members an archive built
    without failure holds: the PDFs that are there, in the order of the
    rows. *)
Definition pdf_member (job_dir : string) (f : JobFile.t) : string * string :=
  (path_join job_dir (pdf_name (JobFile.filename f)), pdf_name (JobFile.filename f)).

Definition present_members (job_dir : string) (fs : gmap string Content)
    (completed_files : list JobFile.t) : list (string * string) :=
  pdf_member job_dir <$>
    List.filter (λ f, exists_ (pdf_member job_dir f).1 fs) completed_files.

Definition missing_pdfs (job_dir : string) (fs : gmap string Content)
    (completed_files : list JobFile.t) : list JobFile.t :=
  List.filter (λ f, negb (exists_ (pdf_member job_dir f).1 fs)) completed_files.

Fixpoint last_char (s : string) : option ascii :=
  match s with
  | EmptyString => None
  | String c EmptyString => Some c
  | String _ r => last_char r
  end.

Definition is_log (e : Event) : Prop := ∃ lvl, e = Log lvl.

(** What an invocation of the finalizer holds in memory agrees with the
    tables [d0]: the job is the one it was called for, the count and the
    status are the ones the files of [d0] give. *)
Definition pc_agrees (job_id : Z) (d0 : Db) (pc : Pc) : Prop :=
  match pc with
  | Start | Returned _ => True
  | Loaded job | NonePending job => Job.id job = job_id
  | Counted job failed_count =>
      Job.id job = job_id ∧
      failed_count = length (with_status FileStatus.FAILED job_id d0)
  | Decided job s | Selected job s _ | Bundled job s =>
      Job.id job = job_id ∧ s = aggregate_of job_id d0
  end.

(** Some invocation of the pool has returned from its commit. *)
Definition committed (pool : list (ZipFault * Pc)) : Prop :=
  ∃ i fault, pool !! i = Some (fault, Returned None).

(** ** Sample worlds

    A job with two files, one converted and one failed, its directory, and
    variations of it; job 2 has a file waiting, job 3 has no files. *)

Definition env0 : Env := mkEnv "storage" (λ p, "/app/" +:+ p).

Definition file_a (s : FileStatus.t) (e : option string) : JobFile.t :=
  JobFile.mk 10 1 "a.docx" s e.

Definition file_b (s : FileStatus.t) (e : option string) : JobFile.t :=
  JobFile.mk 11 1 "b.docx" s e.

Definition fs0 : gmap string Content :=
  <["storage/1/a.docx" := Data]> (<["storage/1/b.docx" := Data]>
  (<["storage/1/a.pdf" := Data]> ∅)).

Definition world_of (s : JobStatus.t) (files : list JobFile.t) : World :=
  {| db := {| jobs := [Job.mk 1 s 1700000000; Job.mk 2 JobStatus.PENDING 1700000100;
                       Job.mk 3 JobStatus.PROCESSING 1700000200];
              job_files := files ++ [JobFile.mk 20 2 "c.docx" FileStatus.PENDING None] |};
     fs := fs0 |}.

(** Both files of job 1 are done: [a.docx] converted, [b.docx] failed. *)
Definition w_mixed : World :=
  world_of JobStatus.PROCESSING
    [file_a FileStatus.COMPLETED None; file_b FileStatus.FAILED (Some "boom")].

(** [b.docx] is still being converted. *)
Definition w_busy : World :=
  world_of JobStatus.PROCESSING
    [file_a FileStatus.COMPLETED None; file_b FileStatus.PROCESSING None].

(** Both files of job 1 wait for their worker. *)
Definition w_fresh : World :=
  world_of JobStatus.PENDING
    [file_a FileStatus.PENDING None; file_b FileStatus.PENDING None].

(** As [w_fresh], but [b.docx] is gone from the job directory. *)
Definition w_lost : World :=
  {| db := db w_fresh; fs := delete "storage/1/b.docx" fs0 |}.

(** A converter that succeeds and writes [p], and one that times out. *)
Definition run_creates (p : string) : Subprocess :=
  λ _ _ fs, (CompletedProcess 0 "", <[p := Data]> fs).

Definition run_timeout : Subprocess := λ _ _ fs, (TimeoutExpired, fs).

(** * Properties *)

(** ** Queries after commits *)

Lemma get_job_id job_id d job : get_job job_id d = Some job → Job.id job = job_id.
Proof.
  unfold get_job. intros H. apply find_some in H as [_ H].
  by apply bool_decide_eq_true in H.
Qed.

Lemma get_file_id file_id d f : get_file file_id d = Some f → JobFile.id f = file_id.
Proof.
  unfold get_file. intros H. apply find_some in H as [_ H].
  by apply bool_decide_eq_true in H.
Qed.

Lemma get_job_update_job job_id g d :
  (∀ j, Job.id (g j) = Job.id j) →
  get_job job_id (update_job job_id g d) = g <$> get_job job_id d.
Proof.
  intros Hg. unfold get_job, update_job. cbn [jobs].
  induction (jobs d) as [|j l IH]; [done|].
  cbn. destruct (bool_decide (Job.id j = job_id)) eqn:E.
  - rewrite Hg, E. done.
  - rewrite E. exact IH.
Qed.

Lemma get_job_update_job_ne job_id other g d :
  (∀ j, Job.id (g j) = Job.id j) → other ≠ job_id →
  get_job other (update_job job_id g d) = get_job other d.
Proof.
  intros Hg Hne. unfold get_job, update_job. cbn [jobs].
  induction (jobs d) as [|j l IH]; [done|].
  cbn. destruct (bool_decide (Job.id j = job_id)) eqn:E.
  - apply bool_decide_eq_true in E. rewrite Hg.
    rewrite !bool_decide_eq_false_2 by congruence. exact IH.
  - destruct (bool_decide (Job.id j = other)); [done | exact IH].
Qed.

Lemma get_file_update_file file_id g d :
  (∀ f, JobFile.id (g f) = JobFile.id f) →
  get_file file_id (update_file file_id g d) = g <$> get_file file_id d.
Proof.
  intros Hg. unfold get_file, update_file. cbn [job_files].
  induction (job_files d) as [|f l IH]; [done|].
  cbn. destruct (bool_decide (JobFile.id f = file_id)) eqn:E.
  - rewrite Hg, E. done.
  - rewrite E. exact IH.
Qed.

Lemma get_file_update_job file_id job_id g d :
  get_file file_id (update_job job_id g d) = get_file file_id d.
Proof. done. Qed.

Lemma terminal_not_unfinished (s : FileStatus.t) :
  s ∈ [FileStatus.COMPLETED; FileStatus.FAILED] ↔
  ¬ s ∈ [FileStatus.PENDING; FileStatus.PROCESSING].
Proof. destruct s; rewrite !elem_of_cons, !elem_of_nil; intuition discriminate. Qed.

Lemma unfinished_nil job_id d :
  unfinished job_id d = [] ↔ Forall file_terminal (files_of job_id d).
Proof.
  unfold unfinished, files_of, file_terminal.
  induction (job_files d) as [|f l IH]; [by split; [constructor|]|].
  rewrite !filter_cons.
  destruct (decide (JobFile.job_id f = job_id)) as [Hj|Hj].
  - rewrite Forall_cons, terminal_not_unfinished, <- IH.
    destruct (decide _) as [[_ Hu]|Hn]; [split; [done | tauto]|].
    split; [|tauto]. intros ->. split; [|done]. intros Hu. apply Hn. done.
  - destruct (decide _) as [[Hu _]|Hn]; [done | exact IH].
Qed.

Lemma with_status_le s job_id d :
  (length (with_status s job_id d) ≤ length (files_of job_id d))%nat.
Proof.
  unfold with_status, files_of.
  induction (job_files d) as [|f l IH]; [done|].
  rewrite !filter_cons. repeat case_decide; cbn; try lia; naive_solver.
Qed.

(** ** The finalizer, case by case *)

Lemma finalize_not_found env fault job_id w :
  get_job job_id (db w) = None →
  finalize_job_task env fault job_id w = (w, [Log ERROR], Some "Job not found").
Proof. intros H. unfold finalize_job_task. by rewrite H. Qed.

Lemma finalize_pending env fault job_id w job :
  get_job job_id (db w) = Some job →
  unfinished job_id (db w) ≠ [] →
  finalize_job_task env fault job_id w = (w, [Log INFO], Some "Pending files").
Proof.
  intros Hjob Hu. unfold finalize_job_task. rewrite Hjob.
  destruct (unfinished job_id (db w)); [done|].
  rewrite bool_decide_eq_true_2; [done | cbn; lia].
Qed.

Lemma finalize_all_done env fault job_id w job :
  get_job job_id (db w) = Some job →
  unfinished job_id (db w) = [] →
  finalize_job_task env fault job_id w =
    (let r := bundle env fault job_id (aggregate_of job_id (db w))
                (with_status FileStatus.COMPLETED job_id (db w)) (fs w) in
     ({| db := update_job job_id (Job.set_status (aggregate_of job_id (db w))) (db w);
         fs := r.1.1 |},
      r.1.2 ++ [Log INFO], None)).
Proof.
  intros Hjob Hu. unfold finalize_job_task. rewrite Hjob, Hu.
  rewrite (get_job_id _ _ _ Hjob). cbn [length]. rewrite bool_decide_eq_false_2 by lia.
  fold (aggregate_of job_id (db w)).
  by destruct (bundle _ _ _ _ _ _) as [[fs' ev] raised].
Qed.

Lemma aggregate_cases (k n : nat) :
  (k ≤ n)%nat → (0 < n)%nat →
  (k = n → aggregate k n = JobStatus.FAILED) ∧
  ((0 < k < n)%nat → aggregate k n = JobStatus.PARTIAL_SUCCESS) ∧
  (k = 0%nat → aggregate k n = JobStatus.COMPLETED).
Proof.
  intros Hle Hn. unfold aggregate. repeat split; intros H.
  - rewrite !bool_decide_eq_true_2 by lia. done.
  - rewrite (bool_decide_eq_false_2 (k = n)) by lia. cbn.
    rewrite bool_decide_eq_true_2 by lia. done.
  - rewrite (bool_decide_eq_false_2 (k = n)) by lia. cbn.
    rewrite bool_decide_eq_false_2 by lia. done.
Qed.

Lemma aggregate_terminal k n : job_terminal (aggregate k n).
Proof. unfold aggregate, job_terminal. repeat case_match; set_solver. Qed.

(** C1. For a job all of whose [n > 0] files are COMPLETED or FAILED, [k] of
    them FAILED, the finalizer leaves the job FAILED when [k = n],
    PARTIAL_SUCCESS when [0 < k < n], and COMPLETED when [k = 0]. *)
Theorem finalize_aggregate_correct env fault job_id w job :
  get_job job_id (db w) = Some job →
  Forall file_terminal (files_of job_id (db w)) →
  (0 < length (files_of job_id (db w)))%nat →
  let n := length (files_of job_id (db w)) in
  let k := length (with_status FileStatus.FAILED job_id (db w)) in
  let w' := (finalize_job_task env fault job_id w).1.1 in
  ∃ job', get_job job_id (db w') = Some job' ∧
    (k = n → Job.status job' = JobStatus.FAILED) ∧
    ((0 < k < n)%nat → Job.status job' = JobStatus.PARTIAL_SUCCESS) ∧
    (k = 0%nat → Job.status job' = JobStatus.COMPLETED).
Proof.
  intros Hjob Hterm Hn n k w'. subst w'.
  apply unfinished_nil in Hterm.
  rewrite (finalize_all_done _ _ _ _ _ Hjob Hterm). cbn [fst snd db].
  rewrite get_job_update_job by done. rewrite Hjob.
  eexists; split; [done|]. cbn [Job.status Job.set_status aggregate_of].
  apply aggregate_cases; [apply with_status_le | done].
Qed.

Lemma finalize_aggregate_correct_witness :
  ∃ job', get_job 1 (db (finalize_job_task env0 NoFault 1 w_mixed).1.1) = Some job' ∧
    (1%nat = 2%nat → Job.status job' = JobStatus.FAILED) ∧
    ((0 < 1 < 2)%nat → Job.status job' = JobStatus.PARTIAL_SUCCESS) ∧
    (1%nat = 0%nat → Job.status job' = JobStatus.COMPLETED).
Proof.
  apply (finalize_aggregate_correct env0 NoFault 1 w_mixed (Job.mk 1 JobStatus.PROCESSING 1700000000)).
  - reflexivity.
  - apply (bool_decide_unpack _). vm_compute. exact I.
  - vm_compute. lia.
Defined.

(** ** No premature finalization *)





Lemma consistent_finalize env fault job_id w :
  consistent (db w) → consistent (db (finalize_job_task env fault job_id w).1.1).
Proof.
  intros Hc. destruct (get_job job_id (db w)) as [job|] eqn:Hjob.
  - destruct (decide (unfinished job_id (db w) = [])) as [Hu|Hu].
    + rewrite (finalize_all_done _ _ _ _ _ Hjob Hu). cbn [fst db].
      intros x'. unfold update_job at 1. cbn [jobs]. rewrite list_elem_of_fmap.
      intros (x & -> & Hx).
      change (unfinished ?j (update_job _ _ (db w))) with (unfinished j (db w)).
      case_bool_decide as Hid.
      * intros _. cbn. by rewrite Hid.
      * by apply Hc.
    + by rewrite (finalize_pending _ _ _ _ _ Hjob Hu).
  - by rewrite finalize_not_found.
Qed.




(** ** The two readings of the finalizer agree *)

(** Run alone, the step-by-step task returns within seven steps, with the
    world, the events and the value of [finalize_job_task]. *)
Lemma fin_run_finalize env fault job_id w :
  fin_run 7 env fault job_id Start w [] =
    (Returned (finalize_job_task env fault job_id w).2,
     (finalize_job_task env fault job_id w).1.1,
     (finalize_job_task env fault job_id w).1.2).
Proof.
  unfold finalize_job_task, bundle. cbn [fin_run fin_step].
  destruct (get_job job_id (db w)) as [job|]; [|done].
  cbn [fin_run fin_step app].
  destruct (bool_decide _); [done|].
  cbn [fin_run fin_step app].
  destruct (wants_zip _); [|by destruct w].
  cbn [fin_run fin_step app].
  destruct (with_status FileStatus.COMPLETED job_id (db w)) as [|f rest]; [by destruct w|].
  destruct (build_zip _ _ _ _ _) as [[fs' ev] raised].
  cbn [fin_run fin_step app fst snd db fs]. done.
Qed.

(** ** A job without files *)

Lemma no_files_no_status s job_id d :
  files_of job_id d = [] → with_status s job_id d = [].
Proof.
  unfold files_of, with_status.
  induction (job_files d) as [|f l IH]; [done|].
  rewrite !filter_cons. repeat case_decide; try done; tauto.
Qed.

Lemma no_files_none_unfinished job_id d :
  files_of job_id d = [] → unfinished job_id d = [].
Proof. intros H. apply unfinished_nil. rewrite H. constructor. Qed.

(** C10. For a job that exists and has no files, the finalizer commits
    COMPLETED, leaves the storage directory as it was and logs nothing about
    an archive: no bundle is built. *)
Theorem finalize_empty_job env fault job_id w job :
  get_job job_id (db w) = Some job →
  files_of job_id (db w) = [] →
  finalize_job_task env fault job_id w =
    ({| db := update_job job_id (Job.set_status JobStatus.COMPLETED) (db w); fs := fs w |},
     [Log INFO], None) ∧
  Job.status <$> get_job job_id (db (finalize_job_task env fault job_id w).1.1)
    = Some JobStatus.COMPLETED.
Proof.
  intros Hjob Hfiles.
  assert (finalize_job_task env fault job_id w =
    ({| db := update_job job_id (Job.set_status JobStatus.COMPLETED) (db w); fs := fs w |},
     [Log INFO], None)) as E.
  { rewrite (finalize_all_done _ _ _ _ _ Hjob (no_files_none_unfinished _ _ Hfiles)).
    unfold aggregate_of. rewrite !(no_files_no_status _ _ _ Hfiles), Hfiles. done. }
  split; [exact E|]. rewrite E. cbn [fst db].
  rewrite get_job_update_job, Hjob by done. done.
Qed.

Lemma finalize_empty_job_witness :
  finalize_job_task env0 NoFault 3 w_mixed =
    ({| db := update_job 3 (Job.set_status JobStatus.COMPLETED) (db w_mixed);
        fs := fs w_mixed |},
     [Log INFO], None) ∧
  Job.status <$> get_job 3 (db (finalize_job_task env0 NoFault 3 w_mixed).1.1)
    = Some JobStatus.COMPLETED.
Proof.
  apply (finalize_empty_job env0 NoFault 3 w_mixed
           (Job.mk 3 JobStatus.PROCESSING 1700000200)); reflexivity.
Defined.

(** ** What the finalizer writes *)

Lemma update_job_status_frame job_id s d :
  Forall2 (λ j j', Job.id j' = Job.id j ∧ Job.created_at j' = Job.created_at j ∧
                   (Job.id j ≠ job_id → j' = j))
          (jobs d) (jobs (update_job job_id (Job.set_status s) d)).
Proof.
  unfold update_job. cbn [jobs].
  induction (jobs d) as [|j l IH]; [constructor|].
  rewrite fmap_cons. constructor; [|exact IH].
  case_bool_decide; [|done]. cbn. tauto.
Qed.

Lemma jobs_frame_refl job_id (l : list Job.t) :
  Forall2 (λ j j', Job.id j' = Job.id j ∧ Job.created_at j' = Job.created_at j ∧
                   (Job.id j ≠ job_id → j' = j)) l l.
Proof. induction l; constructor; auto. Qed.

(** C6. Of the two tables a call of the finalizer changes nothing but the
    status column of the job it was called for: the file rows stay as they
    are (status, error message and all), and every job row keeps its
    primary key and creation time, the rows of other jobs entirely. *)
Theorem finalize_frame env fault job_id w :
  let w' := (finalize_job_task env fault job_id w).1.1 in
  job_files (db w') = job_files (db w) ∧
  Forall2 (λ j j', Job.id j' = Job.id j ∧ Job.created_at j' = Job.created_at j ∧
                   (Job.id j ≠ job_id → j' = j))
          (jobs (db w)) (jobs (db w')).
Proof.
  cbn zeta.
  destruct (get_job job_id (db w)) as [job|] eqn:Hjob.
  - destruct (decide (unfinished job_id (db w) = [])) as [Hu|Hu].
    + rewrite (finalize_all_done _ _ _ _ _ Hjob Hu). cbn [fst db].
      split; [done | apply update_job_status_frame].
    + rewrite (finalize_pending _ _ _ _ _ Hjob Hu). cbn [fst].
      split; [done | apply jobs_frame_refl].
  - rewrite finalize_not_found by done. cbn [fst].
    split; [done | apply jobs_frame_refl].
Qed.

(** ** A failure while the archive is written *)

Lemma bundle_raised_logged env fault job_id s completed_files fs0 :
  (bundle env fault job_id s completed_files fs0).2 = true →
  Log ERROR ∈ (bundle env fault job_id s completed_files fs0).1.2.
Proof.
  unfold bundle. destruct (wants_zip s); [|done].
  destruct completed_files as [|f rest]; [done|].
  unfold build_zip. destruct fault; cbn zeta.
  - destruct (write_members _ _ _ _ _ _) as [[members ev] raised]. cbn.
    intros ->. set_solver.
  - intros _. set_solver.
  - destruct (write_members _ _ _ _ _ _) as [[members ev] raised]. cbn.
    intros ->. set_solver.
Qed.

(** C7. When all files of a job are terminal and writing the archive raises,
    the call still returns normally, the failure is logged, and the status
    computed before the archive was attempted is the one committed: after
    the call the job holds FAILED, PARTIAL_SUCCESS or COMPLETED as its files
    add up to, with its key and creation time as before. *)
Theorem finalize_bundle_error env fault job_id w job :
  get_job job_id (db w) = Some job →
  unfinished job_id (db w) = [] →
  (bundle env fault job_id (aggregate_of job_id (db w))
     (with_status FileStatus.COMPLETED job_id (db w)) (fs w)).2 = true →
  let r := finalize_job_task env fault job_id w in
  let n := length (files_of job_id (db w)) in
  let k := length (with_status FileStatus.FAILED job_id (db w)) in
  r.2 = None ∧
  Log ERROR ∈ r.1.2 ∧
  last r.1.2 = Some (Log INFO) ∧
  get_job job_id (db r.1.1) = Some (Job.set_status (aggregate_of job_id (db w)) job) ∧
  job_terminal (aggregate_of job_id (db w)) ∧
  ∃ job', get_job job_id (db r.1.1) = Some job' ∧
    Job.id job' = job_id ∧
    Job.created_at job' = Job.created_at job ∧
    Job.status job' = aggregate_of job_id (db w) ∧
    job_terminal (Job.status job') ∧
    (k = n → (0 < n)%nat → Job.status job' = JobStatus.FAILED) ∧
    ((0 < k < n)%nat → Job.status job' = JobStatus.PARTIAL_SUCCESS) ∧
    (k = 0%nat → Job.status job' = JobStatus.COMPLETED).
Proof.
  intros Hjob Hu Hraised r n k. subst r.
  rewrite (finalize_all_done _ _ _ _ _ Hjob Hu). cbn [fst snd db].
  rewrite get_job_update_job, Hjob by done.
  split; [done|]. split; [|split; [|split; [|split]]].
  - apply elem_of_app. left. by apply bundle_raised_logged.
  - apply last_snoc.
  - done.
  - apply aggregate_terminal.
  - eexists. split; [done|]. cbn [Job.id Job.status Job.created_at Job.set_status].
    split; [by eapply get_job_id|]. split; [done|]. split; [done|].
    split; [apply aggregate_terminal|].
    unfold aggregate_of. fold n k. clearbody n k. unfold aggregate.
    repeat split; intros; repeat case_bool_decide; cbn; try done; lia.
Qed.

Lemma finalize_bundle_error_witness :
  let r := finalize_job_task env0 (WriteFails 0) 1 w_mixed in
  let n := length (files_of 1 (db w_mixed)) in
  let k := length (with_status FileStatus.FAILED 1 (db w_mixed)) in
  r.2 = None ∧
  Log ERROR ∈ r.1.2 ∧
  last r.1.2 = Some (Log INFO) ∧
  get_job 1 (db r.1.1) =
    Some (Job.set_status (aggregate_of 1 (db w_mixed)) (Job.mk 1 JobStatus.PROCESSING 1700000000)) ∧
  job_terminal (aggregate_of 1 (db w_mixed)) ∧
  ∃ job', get_job 1 (db r.1.1) = Some job' ∧
    Job.id job' = 1 ∧
    Job.created_at job' = Job.created_at (Job.mk 1 JobStatus.PROCESSING 1700000000) ∧
    Job.status job' = aggregate_of 1 (db w_mixed) ∧
    job_terminal (Job.status job') ∧
    (k = n → (0 < n)%nat → Job.status job' = JobStatus.FAILED) ∧
    ((0 < k < n)%nat → Job.status job' = JobStatus.PARTIAL_SUCCESS) ∧
    (k = 0%nat → Job.status job' = JobStatus.COMPLETED).
Proof.
  apply (finalize_bundle_error env0 (WriteFails 0) 1 w_mixed
           (Job.mk 1 JobStatus.PROCESSING 1700000000)); reflexivity.
Defined.

Example finalize_bundle_error_sample :
  Job.status <$> get_job 1 (db (finalize_job_task env0 (WriteFails 0) 1 w_mixed).1.1)
  = Some JobStatus.PARTIAL_SUCCESS.
Proof. reflexivity. Qed.

(** ** Calling the finalizer again *)

Lemma finalize_db env fault job_id w :
  db (finalize_job_task env fault job_id w).1.1 = db_after job_id (db w).
Proof.
  unfold db_after. destruct (get_job job_id (db w)) as [job|] eqn:Hjob.
  - destruct (decide _) as [Hu|Hu].
    + by rewrite (finalize_all_done _ _ _ _ _ Hjob Hu).
    + by rewrite (finalize_pending _ _ _ _ _ Hjob Hu).
  - by rewrite finalize_not_found.
Qed.

Lemma update_job_twice job_id s d :
  update_job job_id (Job.set_status s) (update_job job_id (Job.set_status s) d)
  = update_job job_id (Job.set_status s) d.
Proof.
  unfold update_job. cbn [jobs job_files]. f_equal.
  rewrite <- list_fmap_compose. apply list_fmap_ext. intros _ j _. cbn.
  destruct (bool_decide (Job.id j = job_id)) eqn:Hj; [|by rewrite Hj].
  cbn. by rewrite Hj.
Qed.

Lemma db_after_idem job_id d : db_after job_id (db_after job_id d) = db_after job_id d.
Proof.
  unfold db_after at 2 3. destruct (get_job job_id d) as [job|] eqn:Hjob.
  - destruct (decide _) as [Hu|Hu].
    + unfold db_after. rewrite get_job_update_job, Hjob by done. cbn [fmap option_fmap option_map].
      change (unfinished job_id (update_job job_id _ d)) with (unfinished job_id d).
      rewrite decide_True by done.
      change (aggregate_of job_id (update_job job_id _ d)) with (aggregate_of job_id d).
      apply update_job_twice.
    + unfold db_after. rewrite Hjob. by rewrite decide_False.
  - unfold db_after. by rewrite Hjob.
Qed.

Lemma finalize_many_db env job_id faults w :
  db (finalize_many env job_id faults w) =
    match faults with [] => db w | _ :: _ => db_after job_id (db w) end.
Proof.
  unfold finalize_many. revert w. induction faults as [|fault faults IH]; intros w; [done|].
  cbn [foldl]. rewrite IH. rewrite finalize_db.
  destruct faults; [done | apply db_after_idem].
Qed.

Lemma insert_agree (p : string) (x : Content) (m1 m2 : gmap string Content) :
  delete p m1 = delete p m2 → <[p:=x]> m1 = <[p:=x]> m2.
Proof.
  intros H. rewrite <- (insert_delete_eq m1), <- (insert_delete_eq m2). by rewrite H.
Qed.

Lemma bundle_off_archive env fault job_id s completed_files (m : gmap string Content) :
  delete (output_zip_of env job_id) (bundle env fault job_id s completed_files m).1.1
  = delete (output_zip_of env job_id) m.
Proof.
  unfold bundle. destruct (wants_zip s); [|done].
  destruct completed_files as [|f rest]; [done|].
  unfold build_zip. destruct fault; cbn zeta; try done;
    destruct (write_members _ _ _ _ _ _) as [[members ev] raised]; cbn [fst];
    apply delete_insert_eq.
Qed.

Lemma bundle_agree env job_id s completed_files (m1 m2 : gmap string Content) :
  wants_zip s = true → completed_files ≠ [] →
  delete (output_zip_of env job_id) m1 = delete (output_zip_of env job_id) m2 →
  (bundle env NoFault job_id s completed_files m1).1.1
  = (bundle env NoFault job_id s completed_files m2).1.1.
Proof.
  intros Hs Hc Hm. unfold bundle. rewrite Hs.
  destruct completed_files as [|f rest]; [done|].
  unfold build_zip. cbn zeta.
  rewrite (insert_agree _ (ZipArchive []) m1 m2 Hm).
  destruct (write_members _ _ _ _ _ _) as [[members ev] raised]. cbn [fst].
  by apply insert_agree.
Qed.

(** A rebuild that does not fail overwrites whatever an earlier call left
    of the archive. *)
Lemma bundle_rebuild env fault job_id s completed_files (m : gmap string Content) :
  (bundle env NoFault job_id s completed_files
     (bundle env fault job_id s completed_files m).1.1).1.1
  = (bundle env NoFault job_id s completed_files m).1.1.
Proof.
  destruct (wants_zip s) eqn:Hs.
  - destruct (decide (completed_files = [])) as [->|Hc].
    + unfold bundle. by rewrite Hs.
    + apply bundle_agree; [done | done | apply bundle_off_archive].
  - unfold bundle. by rewrite Hs.
Qed.

Lemma finalize_absorbs env fault job_id w :
  (finalize_job_task env NoFault job_id (finalize_job_task env fault job_id w).1.1).1.1
  = (finalize_job_task env NoFault job_id w).1.1.
Proof.
  destruct (get_job job_id (db w)) as [job|] eqn:Hjob.
  - destruct (decide (unfinished job_id (db w) = [])) as [Hu|Hu].
    + rewrite (finalize_all_done env fault _ _ _ Hjob Hu). cbn [fst snd].
      set (s := aggregate_of job_id (db w)).
      set (cf := with_status FileStatus.COMPLETED job_id (db w)).
      erewrite finalize_all_done; cycle 1.
      { cbn [db]. rewrite get_job_update_job, Hjob by done. done. }
      { exact Hu. }
      rewrite (finalize_all_done env NoFault _ _ _ Hjob Hu). cbn [fst snd db fs].
      change (aggregate_of job_id (update_job job_id _ (db w))) with s.
      change (with_status FileStatus.COMPLETED job_id (update_job job_id _ (db w))) with cf.
      fold s cf. rewrite update_job_twice, bundle_rebuild. done.
    + by rewrite (finalize_pending env fault _ _ _ Hjob Hu).
  - by rewrite (finalize_not_found env fault).
Qed.

Lemma finalize_many_absorbs env job_id faults w :
  finalize_many env job_id (faults ++ [NoFault]) w
  = (finalize_job_task env NoFault job_id w).1.1.
Proof.
  unfold finalize_many. revert w. induction faults as [|fault faults IH]; intros w; [done|].
  cbn [app foldl]. rewrite IH. apply finalize_absorbs.
Qed.

Lemma finalize_many_replicate env job_id n w :
  finalize_many env job_id (replicate n NoFault) (finalize_job_task env NoFault job_id w).1.1
  = (finalize_job_task env NoFault job_id w).1.1.
Proof.
  induction n as [|n IH]; [done|].
  rewrite replicate_S_end. unfold finalize_many in *. rewrite foldl_snoc, IH.
  apply finalize_absorbs.
Qed.

Lemma finalize_returns_None env fault job_id w :
  (finalize_job_task env fault job_id w).2 = None →
  ∃ job, get_job job_id (db w) = Some job ∧ unfinished job_id (db w) = [].
Proof.
  intros Hret. destruct (get_job job_id (db w)) as [job|] eqn:Hjob.
  - destruct (decide (unfinished job_id (db w) = [])) as [Hu|Hu]; [by eauto|].
    by rewrite (finalize_pending _ _ _ _ _ Hjob Hu) in Hret.
  - by rewrite finalize_not_found in Hret.
Qed.

(** C5. Once a call of the finalizer has committed a status for the job, the
    status is terminal, and with the file rows as they are any number of
    further calls, failing on the archive or not, leave both tables as they
    are; a further call that writes the archive without failure leaves the
    storage directory that a single such call leaves, whatever calls came
    in between; and when the first call wrote the archive without failure,
    further such calls leave the whole world as it is. *)
Theorem finalize_idempotent env job_id w0 fault0 :
  (finalize_job_task env fault0 job_id w0).2 = None →
  let w := (finalize_job_task env fault0 job_id w0).1.1 in
  (∃ job, get_job job_id (db w) = Some job ∧ job_terminal (Job.status job)) ∧
  (∀ faults, db (finalize_many env job_id faults w) = db w) ∧
  (∀ faults, finalize_many env job_id (faults ++ [NoFault]) w
             = (finalize_job_task env NoFault job_id w).1.1) ∧
  (fault0 = NoFault → ∀ n, finalize_many env job_id (replicate n NoFault) w = w).
Proof.
  intros Hret w. repeat split.
  - destruct (finalize_returns_None _ _ _ _ Hret) as (job & Hjob & Hu).
    exists (Job.set_status (aggregate_of job_id (db w0)) job). subst w.
    rewrite (finalize_all_done _ _ _ _ _ Hjob Hu). cbn [fst db].
    rewrite get_job_update_job, Hjob by done. split; [done | apply aggregate_terminal].
  - intros faults. rewrite finalize_many_db. destruct faults; [done|].
    subst w. rewrite finalize_db. apply db_after_idem.
  - intros faults. apply finalize_many_absorbs.
  - intros -> n. apply finalize_many_replicate.
Qed.

Lemma finalize_idempotent_witness :
  let w := (finalize_job_task env0 NoFault 1 w_mixed).1.1 in
  (∃ job, get_job 1 (db w) = Some job ∧ job_terminal (Job.status job)) ∧
  (∀ faults, db (finalize_many env0 1 faults w) = db w) ∧
  (∀ faults, finalize_many env0 1 (faults ++ [NoFault]) w
             = (finalize_job_task env0 NoFault 1 w).1.1) ∧
  (NoFault = NoFault → ∀ n, finalize_many env0 1 (replicate n NoFault) w = w).
Proof.
  apply (finalize_idempotent env0 1 w_mixed NoFault). reflexivity.
Defined.

(** The same for any world in which the job, its row unique under the
    primary key, holds the status that its files, all terminal, add up to:
    calls of the finalizer leave the tables as they are. *)
Lemma unique_row job_id (l : list Job.t) job x :
  NoDup (Job.id <$> l) →
  List.find (λ j, bool_decide (Job.id j = job_id)) l = Some job →
  x ∈ l → Job.id x = job_id → x = job.
Proof.
  induction l as [|a l IH]; [done|].
  rewrite fmap_cons, NoDup_cons. intros [Ha Hl]. cbn [List.find].
  case_bool_decide as Hid.
  - intros [= <-]. rewrite elem_of_cons. intros [->|Hx] Hxid; [done|].
    destruct Ha. rewrite Hid, <- Hxid. by apply list_elem_of_fmap_2.
  - intros Hfind. rewrite elem_of_cons. intros [->|Hx] Hxid; [done|]. by apply IH.
Qed.

Lemma update_job_settled job_id s d :
  (∀ x, x ∈ jobs d → Job.id x = job_id → Job.status x = s) →
  update_job job_id (Job.set_status s) d = d.
Proof.
  intros H. destruct d as [js fl]. unfold update_job. cbn [jobs job_files] in *. f_equal.
  rewrite <- (list_fmap_id js) at 2. apply list_fmap_ext. intros i x Hx.
  case_bool_decide as Hid; [|done].
  rewrite <- (H x (list_elem_of_lookup_2 _ _ _ Hx) Hid). by destruct x.
Qed.

Lemma finalize_settled env job_id w job :
  get_job job_id (db w) = Some job →
  NoDup (Job.id <$> jobs (db w)) →
  unfinished job_id (db w) = [] →
  Job.status job = aggregate_of job_id (db w) →
  ∀ faults, db (finalize_many env job_id faults w) = db w.
Proof.
  intros Hjob Hpk Hu Hs faults. rewrite finalize_many_db. destruct faults; [done|].
  unfold db_after. rewrite Hjob, decide_True by done.
  apply update_job_settled. intros x Hx Hid.
  by rewrite (unique_row job_id (jobs (db w)) job x Hpk Hjob Hx Hid).
Qed.

(** ** The finalizer on the sample job *)

Example finalize_mixed_status :
  Job.status <$> get_job 1 (db (finalize_job_task env0 NoFault 1 w_mixed).1.1)
  = Some JobStatus.PARTIAL_SUCCESS.
Proof. reflexivity. Qed.

Example finalize_mixed_archive :
  fs (finalize_job_task env0 NoFault 1 w_mixed).1.1 !! "storage/1/converted_files.zip"
  = Some (ZipArchive [("storage/1/a.pdf", "a.pdf")]).
Proof. vm_compute. reflexivity. Qed.

Example finalize_mixed_events :
  (finalize_job_task env0 NoFault 1 w_mixed).1.2 = [Log INFO; Log INFO].
Proof. reflexivity. Qed.

Example finalize_busy_returns :
  finalize_job_task env0 NoFault 1 w_busy = (w_busy, [Log INFO], Some "Pending files").
Proof. reflexivity. Qed.

(** ** The worker, case by case *)

Lemma convert_not_found env run file_id w :
  get_file file_id (db w) = None →
  convert_file_task env run file_id w = (w, [Log ERROR], Some "File not found").
Proof. intros H. unfold convert_file_task. by rewrite H. Qed.

Lemma convert_input_missing env run file_id w f :
  get_file file_id (db w) = Some f →
  exists_ (input_path_of env f) (fs w) = false →
  convert_file_task env run file_id w =
    ({| db := mark_processing f (db w); fs := fs w |}, [Log ERROR], None).
Proof. intros Hf Hin. unfold convert_file_task. by rewrite Hf, Hin. Qed.

Lemma convert_input_present env run file_id w f :
  get_file file_id (db w) = Some f →
  exists_ (input_path_of env f) (fs w) = true →
  convert_file_task env run file_id w =
    (let res := run (libreoffice_argv env f) 60 (fs w) in
     let out := record_outcome file_id (output_path_of env f) res.1 res.2
                  (mark_processing f (db w)) in
     ({| db := out.1; fs := res.2 |},
      [Run (libreoffice_argv env f) 60; Log out.2; Delay (JobFile.job_id f)], None)).
Proof.
  intros Hf Hin. unfold convert_file_task. rewrite Hf, Hin. cbn [negb].
  rewrite (get_file_id _ _ _ Hf).
  destruct (run _ _ _) as [result fs']. cbn [fst snd].
  by destruct (record_outcome _ _ _ _ _) as [d' lvl].
Qed.

Lemma get_file_mark_processing file_id d f :
  get_file file_id d = Some f →
  get_file file_id (mark_processing f d)
  = Some (JobFile.set_status FileStatus.PROCESSING f).
Proof.
  intros Hf. unfold mark_processing. rewrite (get_file_id _ _ _ Hf).
  assert (get_file file_id (update_file file_id (JobFile.set_status FileStatus.PROCESSING) d)
          = Some (JobFile.set_status FileStatus.PROCESSING f)) as E.
  { rewrite get_file_update_file, Hf by done. done. }
  destruct (get_job _ d) as [job|]; [|exact E].
  destruct (bool_decide _); [|exact E].
  by rewrite get_file_update_job.
Qed.

Lemma get_file_record_outcome file_id output_path result m d f :
  get_file file_id d = Some f →
  get_file file_id (record_outcome file_id output_path result m d).1
  = Some (apply_outcome (outcome_of output_path result m) f).
Proof.
  intros Hf. unfold record_outcome, outcome_of, mark_failed, mark_completed.
  destruct result as [rc stderr| |message]; repeat case_match; cbn [fst];
    rewrite get_file_update_file, Hf by done; done.
Qed.

Lemma outcome_terminal output_path result m :
  (outcome_of output_path result m).1 ∈ [FileStatus.COMPLETED; FileStatus.FAILED].
Proof. unfold outcome_of. repeat case_match; set_solver. Qed.

Lemma apply_outcome_status o f : JobFile.status (apply_outcome o f) = o.1.
Proof. unfold apply_outcome. by destruct o as [s [m|]]. Qed.

(** With the input in place the worker calls the converter once, with a
    timeout of 60, leaves the file in the status the result of the
    converter dictates, and enqueues the finalizer of the job. *)
Lemma convert_reaches_terminal env run file_id w f :
  get_file file_id (db w) = Some f →
  exists_ (input_path_of env f) (fs w) = true →
  let r := convert_file_task env run file_id w in
  let res := run (libreoffice_argv env f) 60 (fs w) in
  let o := outcome_of (output_path_of env f) res.1 res.2 in
  (∃ lvl, r.1.2 = [Run (libreoffice_argv env f) 60; Log lvl; Delay (JobFile.job_id f)]) ∧
  get_file file_id (db r.1.1)
    = Some (apply_outcome o (JobFile.set_status FileStatus.PROCESSING f)) ∧
  o.1 ∈ [FileStatus.COMPLETED; FileStatus.FAILED].
Proof.
  intros Hf Hin. cbn zeta. rewrite (convert_input_present _ _ _ _ _ Hf Hin). cbn [fst snd db].
  split; [by eexists|]. split; [|apply outcome_terminal].
  apply get_file_record_outcome. by apply get_file_mark_processing.
Qed.

(** ** The worker when the input is gone *)

(** C3. The claim fails on the code: with [b.docx] missing from the job
    directory the worker leaves the file PROCESSING, logs one error and
    does not enqueue the finalizer, whatever the converter would do. *)
Theorem convert_missing_input_stuck (run : Subprocess) :
  let r := convert_file_task env0 run 11 w_lost in
  JobFile.status <$> get_file 11 (db w_lost) = Some FileStatus.PENDING ∧
  JobFile.status <$> get_file 11 (db r.1.1) = Some FileStatus.PROCESSING ∧
  r.1.2 = [Log ERROR] ∧
  Delay 1 ∉ r.1.2.
Proof.
  cbn zeta.
  rewrite (convert_input_missing env0 run 11 w_lost (file_b FileStatus.PENDING None))
    by reflexivity.
  repeat split. cbn [fst snd]. rewrite list_elem_of_singleton. discriminate.
Qed.

(** The same in general: a missing input leaves the file PROCESSING and
    the finalizer is not enqueued. *)
Lemma convert_missing_input env run file_id w f :
  get_file file_id (db w) = Some f →
  exists_ (input_path_of env f) (fs w) = false →
  let r := convert_file_task env run file_id w in
  get_file file_id (db r.1.1) = Some (JobFile.set_status FileStatus.PROCESSING f) ∧
  r.1.2 = [Log ERROR].
Proof.
  intros Hf Hin. cbn zeta. rewrite (convert_input_missing _ _ _ _ _ Hf Hin). cbn [fst snd db].
  split; [by apply get_file_mark_processing | done].
Qed.

(** ** The worker on a file it has handled before *)

(** C4, as the claim states it, fails: a COMPLETED file whose conversion is
    run again and times out ends FAILED, after a second run of the
    converter. *)
Lemma convert_again_counterexample :
  let r := convert_file_task env0 run_timeout 10 w_mixed in
  JobFile.status <$> get_file 10 (db w_mixed) = Some FileStatus.COMPLETED ∧
  JobFile.status <$> get_file 10 (db r.1.1) = Some FileStatus.FAILED ∧
  r.1.2 = [Run ["libreoffice"; "--headless"; "--convert-to"; "pdf"; "--outdir";
                "/app/storage/1"; "/app/storage/1/a.docx"] 60;
           Log ERROR; Delay 1].
Proof. repeat split. Qed.

(** Run alone, the two commits of the worker give the world, the events and
    the value of [convert_file_task]. *)
Lemma conv_step_convert env run file_id w :
  let s1 := conv_step env run file_id Fetching w in
  let s2 := conv_step env run file_id s1.1.1 s1.1.2 in
  s2.1.1 = Finished (convert_file_task env run file_id w).2 ∧
  s2.1.2 = (convert_file_task env run file_id w).1.1 ∧
  s1.2 ++ s2.2 = (convert_file_task env run file_id w).1.2.
Proof.
  cbn zeta. unfold convert_file_task. cbn [conv_step].
  destruct (get_file file_id (db w)) as [f|]; [|done].
  cbn [conv_step fst snd fs db].
  destruct (negb (exists_ (input_path_of env f) (fs w))); [done|].
  destruct (run _ _ _) as [result fs'].
  destruct (record_outcome _ _ _ _ _) as [d' lvl]. done.
Qed.

(** C4, amended. For a file already COMPLETED or FAILED whose input is in
    place, the worker first commits the file as PROCESSING, then runs the
    converter once more, leaves the file in the terminal status this run
    dictates, and enqueues the finalizer of the job. *)
Theorem convert_again env run file_id w f :
  get_file file_id (db w) = Some f →
  file_terminal f →
  exists_ (input_path_of env f) (fs w) = true →
  let r := convert_file_task env run file_id w in
  let res := run (libreoffice_argv env f) 60 (fs w) in
  let s1 := conv_step env run file_id Fetching w in
  let s2 := conv_step env run file_id (Converting f) s1.1.2 in
  (s1.1.1 = Converting f ∧ s1.2 = [] ∧
   ∃ f1, get_file file_id (db s1.1.2) = Some f1 ∧
         JobFile.status f1 = FileStatus.PROCESSING ∧
         JobFile.status f1 ≠ JobFile.status f ∧
         JobFile.error_message f1 = JobFile.error_message f) ∧
  (s2.1.1 = Finished None ∧ s2.1.2 = r.1.1 ∧ s2.2 = r.1.2) ∧
  (∃ lvl, r.1.2 = [Run (libreoffice_argv env f) 60; Log lvl; Delay (JobFile.job_id f)]) ∧
  ∃ f', get_file file_id (db r.1.1) = Some f' ∧
        file_terminal f' ∧
        JobFile.status f' = (outcome_of (output_path_of env f) res.1 res.2).1.
Proof.
  intros Hf Hterm Hin.
  destruct (convert_reaches_terminal env run file_id w f Hf Hin) as (Hev & Hget & Hout).
  pose proof (conv_step_convert env run file_id w) as (Ha & Hb & Hc).
  assert (conv_step env run file_id Fetching w
          = (Converting f, {| db := mark_processing f (db w); fs := fs w |}, [])) as E1.
  { cbn [conv_step]. by rewrite Hf. }
  cbn zeta in *. rewrite E1 in *. cbn [fst snd db app] in *.
  split; [|split; [|split]].
  - split; [done|]. split; [done|].
    exists (JobFile.set_status FileStatus.PROCESSING f).
    split; [by apply get_file_mark_processing|]. split; [done|]. split; [|done].
    cbn. intros E. unfold file_terminal in Hterm. rewrite <- E in Hterm.
    rewrite !elem_of_cons, elem_of_nil in Hterm. intuition discriminate.
  - rewrite Ha, Hb, Hc. split; [|done].
    by rewrite (convert_input_present _ _ _ _ _ Hf Hin).
  - exact Hev.
  - eexists. split; [exact Hget|]. unfold file_terminal.
    rewrite apply_outcome_status. split; [exact Hout | done].
Qed.

Lemma convert_again_witness :
  let r := convert_file_task env0 (run_creates "storage/1/b.pdf") 11 w_mixed in
  let f := file_b FileStatus.FAILED (Some "boom") in
  let res := run_creates "storage/1/b.pdf" (libreoffice_argv env0 f) 60 (fs w_mixed) in
  let s1 := conv_step env0 (run_creates "storage/1/b.pdf") 11 Fetching w_mixed in
  let s2 := conv_step env0 (run_creates "storage/1/b.pdf") 11 (Converting f) s1.1.2 in
  (s1.1.1 = Converting f ∧ s1.2 = [] ∧
   ∃ f1, get_file 11 (db s1.1.2) = Some f1 ∧
         JobFile.status f1 = FileStatus.PROCESSING ∧
         JobFile.status f1 ≠ JobFile.status f ∧
         JobFile.error_message f1 = JobFile.error_message f) ∧
  (s2.1.1 = Finished None ∧ s2.1.2 = r.1.1 ∧ s2.2 = r.1.2) ∧
  (∃ lvl, r.1.2 = [Run (libreoffice_argv env0 f) 60; Log lvl; Delay 1]) ∧
  ∃ f', get_file 11 (db r.1.1) = Some f' ∧
        file_terminal f' ∧
        JobFile.status f' = (outcome_of (output_path_of env0 f) res.1 res.2).1.
Proof.
  apply (convert_again env0 (run_creates "storage/1/b.pdf") 11 w_mixed
           (file_b FileStatus.FAILED (Some "boom"))).
  - reflexivity.
  - apply (bool_decide_unpack _). vm_compute. exact I.
  - reflexivity.
Defined.

(** ** The error message *)

(** C8. The claim fails on the code: the worker never clears the message.
    A FAILED file that is handed to the worker again and converts is
    COMPLETED with the message of the earlier failure still on it. *)
Theorem redelivery_keeps_error_message :
  let r := convert_file_task env0 (run_creates "storage/1/b.pdf") 11 w_mixed in
  get_file 11 (db w_mixed) = Some (file_b FileStatus.FAILED (Some "boom")) ∧
  get_file 11 (db r.1.1) = Some (file_b FileStatus.COMPLETED (Some "boom")).
Proof. split; reflexivity. Qed.

Lemma outcome_message_failed output_path result m :
  is_Some (outcome_of output_path result m).2 →
  (outcome_of output_path result m).1 = FileStatus.FAILED.
Proof. unfold outcome_of. repeat case_match; cbn; try done; by intros [? ?]. Qed.

(** On a file that carries no message, as every file does when the job is
    created, one run of the worker keeps the rule: a message only on a
    FAILED file. *)
Lemma convert_first_delivery_message env run file_id w f f' :
  get_file file_id (db w) = Some f →
  JobFile.error_message f = None →
  get_file file_id (db (convert_file_task env run file_id w).1.1) = Some f' →
  is_Some (JobFile.error_message f') → JobFile.status f' = FileStatus.FAILED.
Proof.
  intros Hf Hnone Hafter Hmsg.
  destruct (exists_ (input_path_of env f) (fs w)) eqn:Hin.
  - destruct (convert_reaches_terminal env run file_id w f Hf Hin) as (_ & Hget & _).
    cbn zeta in Hget. rewrite Hget in Hafter. injection Hafter as <-.
    rewrite apply_outcome_status. apply outcome_message_failed.
    revert Hmsg. unfold apply_outcome.
    destruct (outcome_of _ _ _).2; [by eauto|]. cbn. rewrite Hnone. by intros [? ?].
  - rewrite (convert_input_missing _ _ _ _ _ Hf Hin) in Hafter. cbn [fst db] in Hafter.
    rewrite (get_file_mark_processing _ _ _ Hf) in Hafter. injection Hafter as <-.
    cbn in Hmsg. rewrite Hnone in Hmsg. by destruct Hmsg.
Qed.

(** ** The timeout *)

(** C9, as the claim states it, fails on the text of the message. *)
Lemma convert_timeout_counterexample :
  JobFile.error_message <$>
    get_file 10 (db (convert_file_task env0 run_timeout 10 w_fresh).1.1)
  ≠ Some (Some "conversion timeout").
Proof. vm_compute. discriminate. Qed.

(** C9, amended. The worker calls the converter once, with a timeout of 60;
    when the call times out the file is FAILED with the message
    ["Conversion timeout (exceeded 60 seconds)"], the converter is not
    called again, and the worker goes on to enqueue the finalizer. *)
Theorem convert_timeout env run file_id w f fs' :
  get_file file_id (db w) = Some f →
  exists_ (input_path_of env f) (fs w) = true →
  run (libreoffice_argv env f) 60 (fs w) = (TimeoutExpired, fs') →
  let r := convert_file_task env run file_id w in
  r.1.2 = [Run (libreoffice_argv env f) 60; Log ERROR; Delay (JobFile.job_id f)] ∧
  r.2 = None ∧
  ∃ f', get_file file_id (db r.1.1) = Some f' ∧
        JobFile.status f' = FileStatus.FAILED ∧
        JobFile.error_message f' = Some "Conversion timeout (exceeded 60 seconds)".
Proof.
  intros Hf Hin Hrun. cbn zeta.
  rewrite (convert_input_present _ _ _ _ _ Hf Hin). rewrite Hrun. cbn [fst snd db].
  repeat split. eexists. split.
  - apply get_file_record_outcome. by apply get_file_mark_processing.
  - done.
Qed.

Lemma convert_timeout_witness :
  let r := convert_file_task env0 run_timeout 10 w_fresh in
  r.1.2 = [Run (libreoffice_argv env0 (file_a FileStatus.PENDING None)) 60; Log ERROR;
           Delay 1] ∧
  r.2 = None ∧
  ∃ f', get_file 10 (db r.1.1) = Some f' ∧
        JobFile.status f' = FileStatus.FAILED ∧
        JobFile.error_message f' = Some "Conversion timeout (exceeded 60 seconds)".
Proof.
  apply (convert_timeout env0 run_timeout 10 w_fresh (file_a FileStatus.PENDING None)
           (fs w_fresh)); reflexivity.
Defined.

(** * Further properties of the worker *)

(** ** The rows after a run of the worker *)

Lemma mark_processing_files f d :
  job_files (mark_processing f d)
  = worker_row (JobFile.id f) (JobFile.set_status FileStatus.PROCESSING) <$> job_files d.
Proof.
  unfold mark_processing. destruct (get_job _ d) as [job|]; [|done].
  by destruct (bool_decide _).
Qed.

Lemma record_outcome_files file_id output_path result m d :
  job_files (record_outcome file_id output_path result m d).1
  = worker_row file_id (apply_outcome (outcome_of output_path result m)) <$> job_files d.
Proof.
  unfold record_outcome, outcome_of, mark_failed, mark_completed.
  destruct result as [rc stderr| |message]; repeat case_match; done.
Qed.

Lemma record_outcome_jobs file_id output_path result m d :
  jobs (record_outcome file_id output_path result m d).1 = jobs d.
Proof.
  unfold record_outcome, mark_failed, mark_completed.
  destruct result as [rc stderr| |message]; repeat case_match; done.
Qed.

Lemma mark_processing_jobs f d :
  jobs (mark_processing f d) =
    match get_job (JobFile.job_id f) d with
    | Some job =>
        if bool_decide (Job.status job = JobStatus.PENDING)
        then jobs (update_job (JobFile.job_id f) (Job.set_status JobStatus.PROCESSING) d)
        else jobs d
    | None => jobs d
    end.
Proof.
  unfold mark_processing. destruct (get_job _ d) as [job|] eqn:Hjob; [|done].
  rewrite (get_job_id _ _ _ Hjob). by destruct (bool_decide _).
Qed.

Lemma worker_row_compose file_id (g h : JobFile.t → JobFile.t) r :
  (∀ x, JobFile.id (h x) = JobFile.id x) →
  worker_row file_id g (worker_row file_id h r) = worker_row file_id (g ∘ h) r.
Proof.
  intros Hh. unfold worker_row.
  destruct (bool_decide (JobFile.id r = file_id)) eqn:E; [rewrite Hh, E | rewrite E]; done.
Qed.

(** The tables the worker leaves, whether or not the input was there. *)
Lemma convert_tables env run file_id w f :
  get_file file_id (db w) = Some f →
  let d' := db (convert_file_task env run file_id w).1.1 in
  jobs d' = jobs (mark_processing f (db w)) ∧
  ∃ g, (∀ r, JobFile.id (g r) = JobFile.id r ∧ JobFile.job_id (g r) = JobFile.job_id r ∧
             JobFile.filename (g r) = JobFile.filename r ∧
             JobFile.status (g r) ≠ FileStatus.PENDING) ∧
       job_files d' = worker_row file_id g <$> job_files (db w).
Proof.
  intros Hf. cbn zeta. pose proof (get_file_id _ _ _ Hf) as Hid.
  destruct (exists_ (input_path_of env f) (fs w)) eqn:Hin.
  - rewrite (convert_input_present _ _ _ _ _ Hf Hin). cbn [fst snd db].
    rewrite record_outcome_jobs, record_outcome_files, mark_processing_files, Hid.
    split; [done|].
    set (o := outcome_of _ _ _).
    exists (λ r, apply_outcome o (JobFile.set_status FileStatus.PROCESSING r)). split.
    + intros r. pose proof (outcome_terminal (output_path_of env f)
        (run (libreoffice_argv env f) 60 (fs w)).1 (run (libreoffice_argv env f) 60 (fs w)).2)
        as Ho. fold o in Ho.
      rewrite apply_outcome_status. unfold apply_outcome.
      repeat split; try (by destruct o.2).
      intros E. rewrite E, !elem_of_cons, elem_of_nil in Ho. intuition discriminate.
    + rewrite <- list_fmap_compose. apply list_fmap_ext. intros _ r _.
      cbn. by rewrite worker_row_compose.
  - rewrite (convert_input_missing _ _ _ _ _ Hf Hin). cbn [fst db].
    rewrite mark_processing_files, Hid. split; [done|].
    exists (JobFile.set_status FileStatus.PROCESSING). split; [|done].
    intros r. repeat split. done.
Qed.

(** ** What the worker writes *)

(** X1. A run of the worker changes no row of the file table but those of
    the file it was called for, and on those neither the key, the job nor
    the file name. *)
Theorem convert_frame_files env run file_id w :
  Forall2 (λ r r', JobFile.id r' = JobFile.id r ∧ JobFile.job_id r' = JobFile.job_id r ∧
                   JobFile.filename r' = JobFile.filename r ∧
                   (JobFile.id r ≠ file_id → r' = r))
          (job_files (db w)) (job_files (db (convert_file_task env run file_id w).1.1)).
Proof.
  destruct (get_file file_id (db w)) as [f|] eqn:Hf.
  - destruct (convert_tables env run file_id w f Hf) as (_ & g & Hg & ->).
    rewrite Forall2_fmap_r. apply Forall_Forall2_diag, Forall_forall. intros r _. cbn.
    unfold worker_row. case_bool_decide as Hr.
    + destruct (Hg r) as (? & ? & ? & _). done.
    + done.
  - rewrite convert_not_found by done. cbn [fst].
    apply Forall_Forall2_diag, Forall_forall. done.
Qed.

Lemma convert_job_exists env run file_id w f job :
  get_file file_id (db w) = Some f →
  get_job (JobFile.job_id f) (db w) = Some job →
  is_Some (get_job (JobFile.job_id f) (db (convert_file_task env run file_id w).1.1)).
Proof.
  intros Hf Hjob.
  destruct (convert_tables env run file_id w f Hf) as (Hjobs & _). cbn zeta in Hjobs.
  unfold get_job at 1. rewrite Hjobs, mark_processing_jobs, Hjob.
  destruct (bool_decide _).
  - fold (get_job (JobFile.job_id f)
            (update_job (JobFile.job_id f) (Job.set_status JobStatus.PROCESSING) (db w))).
    rewrite get_job_update_job, Hjob by done. by eexists.
  - fold (get_job (JobFile.job_id f) (db w)). rewrite Hjob. by eexists.
Qed.

(** X2. Of the job table the worker changes one thing: the job of the file,
    when it is PENDING, becomes PROCESSING.  A job in any other status,
    terminal ones included, is left as it is, and so is every other job. *)
Theorem convert_job_status env run file_id w f job :
  get_file file_id (db w) = Some f →
  get_job (JobFile.job_id f) (db w) = Some job →
  let d' := db (convert_file_task env run file_id w).1.1 in
  get_job (JobFile.job_id f) d'
    = Some (if bool_decide (Job.status job = JobStatus.PENDING)
            then Job.set_status JobStatus.PROCESSING job else job) ∧
  (Job.status job ≠ JobStatus.PENDING → jobs d' = jobs (db w)) ∧
  (∀ other, other ≠ JobFile.job_id f → get_job other d' = get_job other (db w)).
Proof.
  intros Hf Hjob. cbn zeta.
  destruct (convert_tables env run file_id w f Hf) as (Hjobs & _).
  rewrite mark_processing_jobs, Hjob in Hjobs.
  case_bool_decide as Hs.
  - assert (∀ j, get_job j (db (convert_file_task env run file_id w).1.1)
                 = get_job j (update_job (JobFile.job_id f)
                                (Job.set_status JobStatus.PROCESSING) (db w))) as Hget.
    { intros j. unfold get_job. by rewrite Hjobs. }
    rewrite Hget, get_job_update_job, Hjob by done. repeat split; [done|].
    intros other Hother. by rewrite Hget, get_job_update_job_ne.
  - assert (∀ j, get_job j (db (convert_file_task env run file_id w).1.1)
                 = get_job j (db w)) as Hget.
    { intros j. unfold get_job. by rewrite Hjobs. }
    rewrite Hget, Hjob. repeat split; done.
Qed.

Lemma convert_job_status_witness :
  let d' := db (convert_file_task env0 run_timeout 10 w_fresh).1.1 in
  get_job 1 d'
    = Some (if bool_decide (Job.status (Job.mk 1 JobStatus.PENDING 1700000000)
                            = JobStatus.PENDING)
            then Job.set_status JobStatus.PROCESSING (Job.mk 1 JobStatus.PENDING 1700000000)
            else Job.mk 1 JobStatus.PENDING 1700000000) ∧
  (Job.status (Job.mk 1 JobStatus.PENDING 1700000000) ≠ JobStatus.PENDING →
   jobs d' = jobs (db w_fresh)) ∧
  (∀ other, other ≠ 1 → get_job other d' = get_job other (db w_fresh)).
Proof.
  apply (convert_job_status env0 run_timeout 10 w_fresh (file_a FileStatus.PENDING None)
           (Job.mk 1 JobStatus.PENDING 1700000000)); reflexivity.
Defined.

(** ** When a conversion counts as done *)

Lemma outcome_completed_iff output_path result m :
  (outcome_of output_path result m).1 = FileStatus.COMPLETED ↔
  (∃ stderr, result = CompletedProcess 0 stderr) ∧ exists_ output_path m = true.
Proof.
  unfold outcome_of. destruct result as [rc stderr| |message].
  - case_bool_decide as Hrc; cbn.
    + split; [done|]. intros [[stderr' [= -> _]] _]. done.
    + assert (rc = 0) as -> by (destruct (decide (rc = 0)); [done | tauto]).
      destruct (exists_ output_path m); cbn; split; try done; [by eauto | by intros [_ ?]].
  - split; [done | by intros [[? ?] _]].
  - split; [done | by intros [[? ?] _]].
Qed.

Lemma outcome_message_iff output_path result m :
  is_Some (outcome_of output_path result m).2 ↔
  (outcome_of output_path result m).1 = FileStatus.FAILED.
Proof.
  unfold outcome_of. repeat case_match; cbn; split; try done; try (by eauto);
    by intros [? ?].
Qed.

(** X3. With the input in place, the file ends COMPLETED exactly when the
    converter returned with code 0 and the PDF named after the file is in
    the job directory afterwards; in every other case it ends FAILED, with
    a message.  A file that ends COMPLETED keeps the message it had. *)
Theorem convert_completed_iff env run file_id w f :
  get_file file_id (db w) = Some f →
  exists_ (input_path_of env f) (fs w) = true →
  let res := run (libreoffice_argv env f) 60 (fs w) in
  let converted :=
    (∃ stderr, res.1 = CompletedProcess 0 stderr) ∧
    exists_ (output_path_of env f) res.2 = true in
  ∃ f', get_file file_id (db (convert_file_task env run file_id w).1.1) = Some f' ∧
    (JobFile.status f' = FileStatus.COMPLETED ↔ converted) ∧
    (JobFile.status f' = FileStatus.FAILED ↔ ¬ converted) ∧
    (JobFile.status f' = FileStatus.FAILED → is_Some (JobFile.error_message f')) ∧
    (JobFile.status f' = FileStatus.COMPLETED →
     JobFile.error_message f' = JobFile.error_message f).
Proof.
  intros Hf Hin.
  destruct (convert_reaches_terminal env run file_id w f Hf Hin) as (_ & Hget & Hterm).
  cbn zeta in *. eexists. split; [exact Hget|].
  set (o := outcome_of _ _ _) in *. rewrite apply_outcome_status.
  pose proof (outcome_completed_iff (output_path_of env f)
                (run (libreoffice_argv env f) 60 (fs w)).1
                (run (libreoffice_argv env f) 60 (fs w)).2) as Hc.
  pose proof (outcome_message_iff (output_path_of env f)
                (run (libreoffice_argv env f) 60 (fs w)).1
                (run (libreoffice_argv env f) 60 (fs w)).2) as Hm.
  fold o in Hc, Hm.
  rewrite !elem_of_cons, elem_of_nil in Hterm.
  split; [exact Hc|]. split; [|split].
  - rewrite <- Hc. destruct Hterm as [E|[E|[]]]; rewrite E; split; done.
  - intros E. apply Hm in E. unfold apply_outcome. destruct E as [msg ->]. by eexists.
  - intros E. unfold apply_outcome. clearbody o.
    destruct o as [st [msg|]]; cbn in *; [|done].
    destruct Hm as [Hm _]. rewrite Hm in E by eauto. discriminate.
Qed.

Lemma convert_completed_iff_witness :
  let res := run_creates "storage/1/b.pdf"
               (libreoffice_argv env0 (file_b FileStatus.PENDING None)) 60 (fs w_fresh) in
  let converted :=
    (∃ stderr, res.1 = CompletedProcess 0 stderr) ∧
    exists_ (output_path_of env0 (file_b FileStatus.PENDING None)) res.2 = true in
  ∃ f', get_file 11
          (db (convert_file_task env0 (run_creates "storage/1/b.pdf") 11 w_fresh).1.1)
        = Some f' ∧
    (JobFile.status f' = FileStatus.COMPLETED ↔ converted) ∧
    (JobFile.status f' = FileStatus.FAILED ↔ ¬ converted) ∧
    (JobFile.status f' = FileStatus.FAILED → is_Some (JobFile.error_message f')) ∧
    (JobFile.status f' = FileStatus.COMPLETED →
     JobFile.error_message f' = JobFile.error_message (file_b FileStatus.PENDING None)).
Proof.
  apply (convert_completed_iff env0 (run_creates "storage/1/b.pdf") 11 w_fresh
           (file_b FileStatus.PENDING None)); reflexivity.
Defined.

(** ** The worker that handles the last file *)

Lemma unfinished_nil_elem job_id d :
  unfinished job_id d = [] ↔
  ∀ r, r ∈ job_files d → JobFile.job_id r = job_id → file_terminal r.
Proof.
  rewrite unfinished_nil, Forall_forall. unfold files_of.
  split; intros H r.
  - intros Hr Hj. apply H. by apply list_elem_of_filter.
  - intros [Hj Hr]%list_elem_of_filter. by apply H.
Qed.

Lemma get_file_elem file_id d f : get_file file_id d = Some f → f ∈ job_files d.
Proof.
  unfold get_file. intros H. apply find_some in H as [H _]. by apply list_elem_of_In.
Qed.

Lemma convert_files_present env run file_id w f :
  get_file file_id (db w) = Some f →
  exists_ (input_path_of env f) (fs w) = true →
  job_files (db (convert_file_task env run file_id w).1.1)
  = worker_row file_id
      (λ r, apply_outcome
              (outcome_of (output_path_of env f)
                 (run (libreoffice_argv env f) 60 (fs w)).1
                 (run (libreoffice_argv env f) 60 (fs w)).2)
              (JobFile.set_status FileStatus.PROCESSING r))
    <$> job_files (db w).
Proof.
  intros Hf Hin. rewrite (convert_input_present _ _ _ _ _ Hf Hin). cbn [fst snd db].
  rewrite record_outcome_files, mark_processing_files, (get_file_id _ _ _ Hf).
  rewrite <- list_fmap_compose. apply list_fmap_ext. intros _ r _.
  cbn. by rewrite worker_row_compose.
Qed.

(** X4. When the worker is handed the one file of a job that is not yet
    terminal, with its input in place, it enqueues the finalizer of that
    job, and this call of the finalizer runs to its commit: the job gets
    the terminal status its files add up to. *)
Theorem last_worker_finalizes env run fault file_id w f job :
  get_file file_id (db w) = Some f →
  get_job (JobFile.job_id f) (db w) = Some job →
  exists_ (input_path_of env f) (fs w) = true →
  (∀ r, r ∈ job_files (db w) → JobFile.job_id r = JobFile.job_id f →
        JobFile.id r ≠ file_id → file_terminal r) →
  let c := convert_file_task env run file_id w in
  let r := finalize_job_task env fault (JobFile.job_id f) c.1.1 in
  Delay (JobFile.job_id f) ∈ c.1.2 ∧
  r.2 = None ∧
  ∃ job', get_job (JobFile.job_id f) (db r.1.1) = Some job' ∧
          job_terminal (Job.status job') ∧
          Job.status job' = aggregate_of (JobFile.job_id f) (db c.1.1).
Proof.
  intros Hf Hjob Hin Hothers. cbn zeta.
  destruct (convert_job_exists env run file_id w f job Hf Hjob) as [job1 Hjob'].
  assert (unfinished (JobFile.job_id f) (db (convert_file_task env run file_id w).1.1) = [])
    as Hu.
  { apply unfinished_nil_elem. intros r'.
    rewrite (convert_files_present _ _ _ _ _ Hf Hin), list_elem_of_fmap.
    intros (r & -> & Hr). unfold worker_row. case_bool_decide as Hid.
    - intros _. unfold file_terminal. cbn beta. rewrite apply_outcome_status.
      apply outcome_terminal.
    - intros Hj. by apply Hothers. }
  split.
  { destruct (convert_reaches_terminal env run file_id w f Hf Hin) as ([lvl ->] & _).
    set_solver. }
  rewrite (finalize_all_done _ _ _ _ _ Hjob' Hu). cbn [fst snd db].
  split; [done|]. rewrite get_job_update_job, Hjob' by done.
  eexists. split; [done|]. split; [apply aggregate_terminal | done].
Qed.

Lemma last_worker_finalizes_witness :
  let c := convert_file_task env0 (run_creates "storage/1/b.pdf") 11 w_busy in
  let r := finalize_job_task env0 NoFault 1 c.1.1 in
  Delay 1 ∈ c.1.2 ∧
  r.2 = None ∧
  ∃ job', get_job 1 (db r.1.1) = Some job' ∧
          job_terminal (Job.status job') ∧
          Job.status job' = aggregate_of 1 (db c.1.1).
Proof.
  apply (last_worker_finalizes env0 (run_creates "storage/1/b.pdf") NoFault 11 w_busy
           (file_b FileStatus.PROCESSING None) (Job.mk 1 JobStatus.PROCESSING 1700000000));
    try reflexivity.
  intros r Hr Hj Hid. apply (bool_decide_unpack _).
  revert Hr Hj Hid. cbn. rewrite !elem_of_cons, elem_of_nil.
  intros [->|[->|[->|[]]]]; cbn; intros; try done; lia.
Defined.

(** ** Jobs and their files stay in step *)

Lemma NoDup_fmap_same {A B} (h : A → B) (l : list A) x y :
  NoDup (h <$> l) → x ∈ l → y ∈ l → h x = h y → x = y.
Proof.
  induction l as [|a l IH]; [by rewrite elem_of_nil|].
  rewrite fmap_cons, NoDup_cons, !elem_of_cons. intros [Ha Hl] [->|Hx] [->|Hy] E.
  - done.
  - destruct Ha. rewrite E. by apply list_elem_of_fmap_2.
  - destruct Ha. rewrite <- E. by apply list_elem_of_fmap_2.
  - by apply IH.
Qed.

Lemma convert_file_ids env run file_id w :
  JobFile.id <$> job_files (db (convert_file_task env run file_id w).1.1)
  = JobFile.id <$> job_files (db w).
Proof.
  destruct (get_file file_id (db w)) as [f|] eqn:Hf.
  - destruct (convert_tables env run file_id w f Hf) as (_ & g & Hg & ->).
    rewrite <- list_fmap_compose. apply list_fmap_ext. intros _ r _. cbn.
    unfold worker_row. case_bool_decide; [apply Hg | done].
  - by rewrite convert_not_found.
Qed.

Lemma consistent_convert env run file_id w :
  NoDup (JobFile.id <$> job_files (db w)) →
  consistent (db w) →
  (∀ f, get_file file_id (db w) = Some f → ¬ file_terminal f) →
  consistent (db (convert_file_task env run file_id w).1.1).
Proof.
  intros Hpk Hc Hfirst.
  destruct (get_file file_id (db w)) as [f|] eqn:Hf; [|by rewrite convert_not_found].
  specialize (Hfirst f eq_refl).
  destruct (convert_tables env run file_id w f Hf) as (Hjobs & g & Hg & Hfiles).
  cbn zeta in *. intros x' Hx' Hterm.
  (* the row is a row of before, of another job than the file's *)
  assert (x' ∈ jobs (db w)) as Hx.
  { rewrite Hjobs, mark_processing_jobs in Hx'.
    destruct (get_job (JobFile.job_id f) (db w)) as [job|]; [|done].
    destruct (bool_decide (Job.status job = JobStatus.PENDING)); [|done].
    unfold update_job in Hx'. cbn [jobs] in Hx'.
    apply list_elem_of_fmap in Hx' as (x & -> & Hx).
    destruct (bool_decide (Job.id x = JobFile.job_id f)); [|done].
    unfold job_terminal in Hterm. cbn in Hterm.
    rewrite !elem_of_cons, elem_of_nil in Hterm. intuition discriminate. }
  pose proof (Hc x' Hx Hterm) as Hu.
  rewrite unfinished_nil_elem in Hu.
  assert (Job.id x' ≠ JobFile.job_id f) as Hne.
  { intros E. apply Hfirst, Hu; [by eapply get_file_elem | done]. }
  apply unfinished_nil_elem. intros r'. rewrite Hfiles, list_elem_of_fmap.
  intros (r & -> & Hr). unfold worker_row. case_bool_decide as Hid.
  - destruct (Hg r) as (_ & -> & _). intros E. destruct Hne.
    rewrite <- E. f_equal. symmetry.
    apply (NoDup_fmap_same JobFile.id (job_files (db w))); try done.
    + by eapply get_file_elem.
    + by rewrite Hid, (get_file_id _ _ _ Hf).
  - by apply Hu.
Qed.

Lemma run_task_file_ids env t w :
  JobFile.id <$> job_files (db (run_task env t w)) = JobFile.id <$> job_files (db w).
Proof.
  destruct t as [run file_id|fault job_id]; cbn [run_task].
  - apply convert_file_ids.
  - rewrite finalize_db. unfold db_after.
    destruct (get_job job_id (db w)); [|done]. by destruct (decide _).
Qed.

(** X5. Start from tables in which file keys are unique and no job is
    terminal while one of its files is unfinished (as after the creation of
    a job, where everything is PENDING).  Run workers and finalizers one at
    a time, in any order and any number, each worker on a file that is not
    yet terminal.  Then still no job is terminal while one of its files is
    unfinished. *)
Theorem runs_consistent env w ts w' :
  NoDup (JobFile.id <$> job_files (db w)) →
  consistent (db w) →
  Runs env w ts w' →
  consistent (db w') ∧ NoDup (JobFile.id <$> job_files (db w')).
Proof.
  intros Hpk Hc Hruns. induction Hruns as [w|w t ts w' Hok Hruns IH]; [done|].
  apply IH.
  - by rewrite run_task_file_ids.
  - destruct t as [run file_id|fault job_id]; cbn [run_task].
    + by apply consistent_convert.
    + by apply consistent_finalize.
Qed.

Lemma runs_consistent_witness :
  let ts := [ConvertFile run_timeout 10; FinalizeJob NoFault 1;
             ConvertFile (run_creates "storage/1/b.pdf") 11; FinalizeJob NoFault 1] in
  let w' := foldl (λ w t, run_task env0 t w) w_fresh ts in
  consistent (db w') ∧ NoDup (JobFile.id <$> job_files (db w')).
Proof.
  apply (runs_consistent env0 w_fresh
           [ConvertFile run_timeout 10; FinalizeJob NoFault 1;
            ConvertFile (run_creates "storage/1/b.pdf") 11; FinalizeJob NoFault 1]).
  - apply (bool_decide_unpack _). vm_compute. exact I.
  - intros j. cbn. rewrite !elem_of_cons, elem_of_nil.
    intros [->|[->|[->|[]]]]; unfold job_terminal; cbn;
      rewrite !elem_of_cons, elem_of_nil; intuition discriminate.
  - repeat (apply Runs_cons;
            [ cbn; try done; intros f [= <-]; unfold file_terminal; cbn;
              rewrite !elem_of_cons, elem_of_nil; intuition discriminate | ]).
    apply Runs_nil.
Defined.

Example runs_sample_status :
  Job.status <$>
    get_job 1 (db (foldl (λ w t, run_task env0 t w) w_fresh
                     [ConvertFile run_timeout 10; FinalizeJob NoFault 1;
                      ConvertFile (run_creates "storage/1/b.pdf") 11;
                      FinalizeJob NoFault 1]))
  = Some JobStatus.PARTIAL_SUCCESS.
Proof. reflexivity. Qed.

(** * Further properties of the finalizer *)

(** ** The archive and the PDFs *)

Lemma append_nonempty (a b : string) : b ≠ "" → a +:+ b ≠ "".
Proof. destruct a; [done | discriminate]. Qed.

Lemma last_char_append (a b : string) : b ≠ "" → last_char (a +:+ b) = last_char b.
Proof.
  intros Hb. induction a as [|c a IH]; [done|].
  change (String c a +:+ b) with (String c (a +:+ b)).
  pose proof (append_nonempty a b Hb) as Hab.
  cbn [last_char]. destruct (a +:+ b); [done | exact IH].
Qed.

Lemma last_char_path_join (a b : string) :
  b ≠ "" → last_char (path_join a b) = last_char b.
Proof.
  intros Hb. unfold path_join. repeat case_match; try done.
  - by apply last_char_append.
  - rewrite last_char_append by discriminate. by apply (last_char_append "/").
Qed.

Lemma last_char_pdf_name filename : last_char (pdf_name filename) = Some "f"%char.
Proof. unfold pdf_name. by rewrite last_char_append. Qed.

Lemma pdf_name_nonempty filename : pdf_name filename ≠ "".
Proof. unfold pdf_name. by apply append_nonempty. Qed.

Lemma last_char_pdf_path (d filename : string) :
  last_char (path_join d (pdf_name filename)) = Some "f"%char.
Proof.
  rewrite last_char_path_join by apply pdf_name_nonempty. apply last_char_pdf_name.
Qed.

Lemma last_char_archive (d : string) :
  last_char (path_join d "converted_files.zip") = Some "p"%char.
Proof. by rewrite last_char_path_join. Qed.

(** X6. Whatever a file is called and wherever the job directories are, the
    path of its PDF is not the path of an archive: the archive of a job
    never takes itself, or the archive of another job, for a converted
    file. *)
Theorem pdf_never_archive env job_id other f :
  (pdf_member (job_dir_of env job_id) f).1 ≠ output_zip_of env other.
Proof.
  unfold pdf_member, output_zip_of. cbn [fst]. intros E.
  apply (f_equal last_char) in E.
  rewrite last_char_pdf_path, last_char_archive in E. discriminate.
Qed.

Lemma write_members_no_fault job_dir m completed_files written ev :
  write_members job_dir m None completed_files written ev
  = (written ++ present_members job_dir m completed_files,
     ev ++ ((λ _, Log WARNING) <$> missing_pdfs job_dir m completed_files),
     false).
Proof.
  revert written ev. unfold present_members, missing_pdfs.
  induction completed_files as [|f rest IH]; intros written ev.
  - cbn. by rewrite !app_nil_r.
  - cbn [write_members List.filter]. unfold pdf_member at 1 3. cbn [fst].
    destruct (exists_ _ m); cbn [negb fmap option_fmap option_map].
    + rewrite IH. cbn [fmap list_fmap]. by rewrite <- app_assoc.
    + rewrite IH. cbn [fmap list_fmap]. by rewrite <- app_assoc.
Qed.

Lemma present_members_insert job_dir p x (m : gmap string Content) completed_files :
  (∀ f, (pdf_member job_dir f).1 ≠ p) →
  present_members job_dir (<[p:=x]> m) completed_files
  = present_members job_dir m completed_files.
Proof.
  intros Hp. unfold present_members. f_equal. apply List.filter_ext. intros f.
  unfold exists_. by rewrite lookup_insert_ne.
Qed.

Lemma missing_pdfs_insert job_dir p x (m : gmap string Content) completed_files :
  (∀ f, (pdf_member job_dir f).1 ≠ p) →
  missing_pdfs job_dir (<[p:=x]> m) completed_files
  = missing_pdfs job_dir m completed_files.
Proof.
  intros Hp. unfold missing_pdfs. apply List.filter_ext. intros f.
  unfold exists_. by rewrite lookup_insert_ne.
Qed.

Lemma counts_le job_id d :
  (length (with_status FileStatus.FAILED job_id d)
   + length (with_status FileStatus.COMPLETED job_id d)
   ≤ length (files_of job_id d))%nat.
Proof.
  unfold with_status, files_of.
  induction (job_files d) as [|f l IH]; [done|].
  rewrite !filter_cons. repeat case_decide; cbn; try lia; destruct_and?;
    try congruence; tauto.
Qed.

Lemma completed_wants_zip job_id d :
  with_status FileStatus.COMPLETED job_id d ≠ [] →
  wants_zip (aggregate_of job_id d) = true.
Proof.
  intros Hc. pose proof (counts_le job_id d) as Hle.
  destruct (with_status FileStatus.COMPLETED job_id d) as [|f rest] eqn:E; [done|].
  cbn [length] in Hle. unfold aggregate_of, aggregate.
  rewrite (bool_decide_eq_false_2 (_ = _)) by lia. cbn.
  by case_bool_decide.
Qed.

(** X7. When all files of a job are terminal and at least one is COMPLETED,
    a call of the finalizer that meets no failure writes the archive of the
    job and touches no other path.  The archive holds, in the order of the
    rows, the PDFs of the COMPLETED files of the job that are in the job
    directory, each under its bare name; for every COMPLETED file without a
    PDF there is one warning, and the archive is written all the same. *)
Theorem finalize_archive env job_id w job :
  get_job job_id (db w) = Some job →
  unfinished job_id (db w) = [] →
  with_status FileStatus.COMPLETED job_id (db w) ≠ [] →
  let completed_files := with_status FileStatus.COMPLETED job_id (db w) in
  let r := finalize_job_task env NoFault job_id w in
  fs r.1.1 =
    <[output_zip_of env job_id :=
        ZipArchive (present_members (job_dir_of env job_id) (fs w) completed_files)]>
      (fs w) ∧
  r.1.2 = ((λ _, Log WARNING) <$> missing_pdfs (job_dir_of env job_id) (fs w) completed_files)
          ++ [Log INFO; Log INFO].
Proof.
  intros Hjob Hu Hc. cbn zeta.
  rewrite (finalize_all_done _ _ _ _ _ Hjob Hu). cbn [fst snd fs].
  unfold bundle. rewrite (completed_wants_zip _ _ Hc).
  destruct (with_status FileStatus.COMPLETED job_id (db w)) as [|f rest] eqn:E; [done|].
  unfold build_zip. cbn [write_fault]. rewrite write_members_no_fault.
  cbn [fst snd app].
  assert (∀ f', (pdf_member (job_dir_of env job_id) f').1 ≠ output_zip_of env job_id)
    as Hpaths.
  { intros f' E'. apply (f_equal last_char) in E'. unfold pdf_member, output_zip_of in E'.
    cbn [fst] in E'. rewrite last_char_pdf_path, last_char_archive in E'. discriminate. }
  rewrite present_members_insert, missing_pdfs_insert by exact Hpaths.
  split; [done|]. by rewrite <- app_assoc.
Qed.

Lemma finalize_archive_witness :
  let completed_files := with_status FileStatus.COMPLETED 1 (db w_mixed) in
  let r := finalize_job_task env0 NoFault 1 w_mixed in
  fs r.1.1 =
    <[output_zip_of env0 1 :=
        ZipArchive (present_members (job_dir_of env0 1) (fs w_mixed) completed_files)]>
      (fs w_mixed) ∧
  r.1.2 = ((λ _, Log WARNING) <$> missing_pdfs (job_dir_of env0 1) (fs w_mixed) completed_files)
          ++ [Log INFO; Log INFO].
Proof.
  apply (finalize_archive env0 1 w_mixed (Job.mk 1 JobStatus.PROCESSING 1700000000));
    [reflexivity | reflexivity | vm_compute; discriminate].
Defined.

(** ** A job all of whose files failed *)

Lemma with_status_all s job_id d :
  Forall (λ f, JobFile.status f = s) (files_of job_id d) →
  with_status s job_id d = files_of job_id d.
Proof.
  unfold with_status, files_of.
  induction (job_files d) as [|f l IH]; [done|].
  rewrite !filter_cons. destruct (decide (JobFile.job_id f = job_id)) as [Hj|Hj].
  - rewrite Forall_cons. intros [Hs Hl]. rewrite decide_True by done. by rewrite IH.
  - intros Hl. rewrite decide_False by tauto. by apply IH.
Qed.

Lemma all_failed_unfinished job_id d :
  Forall (λ f, JobFile.status f = FileStatus.FAILED) (files_of job_id d) →
  unfinished job_id d = [].
Proof.
  intros H. apply unfinished_nil. eapply Forall_impl; [exact H|].
  intros f Hf. unfold file_terminal. rewrite Hf, !elem_of_cons. tauto.
Qed.

Lemma all_failed_aggregate job_id d :
  files_of job_id d ≠ [] →
  Forall (λ f, JobFile.status f = FileStatus.FAILED) (files_of job_id d) →
  aggregate_of job_id d = JobStatus.FAILED.
Proof.
  intros Hne Hall. unfold aggregate_of, aggregate. rewrite (with_status_all _ _ _ Hall).
  destruct (files_of job_id d); [done|].
  rewrite !bool_decide_eq_true_2; [done | cbn; lia | done].
Qed.



(** ** What the finalizer does to the outside *)

Lemma write_members_logs job_dir m fault completed_files written ev :
  Forall is_log ev →
  Forall is_log (write_members job_dir m fault completed_files written ev).1.2.
Proof.
  revert fault written ev.
  induction completed_files as [|f rest IH]; intros fault written ev Hev; [done|].
  cbn [write_members]. destruct (exists_ _ m).
  - destruct fault as [[|k]|]; [done | by apply IH | by apply IH].
  - apply IH. apply Forall_app. split; [done|]. repeat constructor. by eexists.
Qed.

Lemma bundle_logs env fault job_id s completed_files m :
  Forall is_log (bundle env fault job_id s completed_files m).1.2.
Proof.
  unfold bundle. destruct (wants_zip s); [|by constructor].
  destruct completed_files as [|f rest]; [by constructor|].
  unfold build_zip.
  pose proof (write_members_logs (job_dir_of env job_id)
                (<[output_zip_of env job_id := ZipArchive []]> m) (write_fault fault)
                (f :: rest) [] [] (Forall_nil_2 _)) as H.
  destruct fault; cbn zeta; try (repeat constructor; by eexists);
    destruct (write_members _ _ _ _ _ _) as [[members ev] raised]; cbn [fst snd] in *;
    (apply Forall_app; split; [done|]; repeat constructor; by eexists).
Qed.

(** X9. Whatever the finalizer finds, all it does to the outside, besides
    the archive, is to write log records: it never runs the converter and
    never enqueues a task. *)
Theorem finalize_only_logs env fault job_id w :
  Forall is_log (finalize_job_task env fault job_id w).1.2.
Proof.
  destruct (get_job job_id (db w)) as [job|] eqn:Hjob.
  - destruct (decide (unfinished job_id (db w) = [])) as [Hu|Hu].
    + rewrite (finalize_all_done _ _ _ _ _ Hjob Hu). cbn [fst snd].
      apply Forall_app. split; [apply bundle_logs|]. repeat constructor. by eexists.
    + rewrite (finalize_pending _ _ _ _ _ Hjob Hu). repeat constructor. by eexists.
  - rewrite finalize_not_found by done. repeat constructor. by eexists.
Qed.

(** * The read routes after the finalizer *)

Lemma bundle_archive_exists env fault job_id s completed_files m :
  wants_zip s = true → completed_files ≠ [] → fault ≠ OpenFails →
  exists_ (output_zip_of env job_id) (bundle env fault job_id s completed_files m).1.1
  = true.
Proof.
  intros Hs Hc Hfault. unfold bundle. rewrite Hs.
  destruct completed_files as [|f rest]; [done|].
  unfold build_zip. destruct fault; [|done|]; cbn zeta;
    destruct (write_members _ _ _ _ _ _) as [[members ev] raised]; cbn [fst];
    unfold exists_; by rewrite lookup_insert_eq, bool_decide_eq_true_2.
Qed.

Lemma wants_zip_cases s :
  wants_zip s = true → s = JobStatus.COMPLETED ∨ s = JobStatus.PARTIAL_SUCCESS.
Proof. destruct s; cbn; try discriminate; tauto. Qed.

(** X10. When all files of a job are terminal and at least one is COMPLETED,
    after a call of the finalizer that could open the archive the status
    route carries the download link and the download route serves the
    archive of the job, under the name [job_<id>_converted.zip]. *)
Theorem download_after_finalize env fault job_id w job :
  get_job job_id (db w) = Some job →
  unfinished job_id (db w) = [] →
  with_status FileStatus.COMPLETED job_id (db w) ≠ [] →
  fault ≠ OpenFails →
  let w' := (finalize_job_task env fault job_id w).1.1 in
  Router.download_job_result env job_id w'
    = Response (mkFileResponse (output_zip_of env job_id)
                  ("job_" +:+ pretty job_id +:+ "_converted.zip") "application/zip") ∧
  ∃ r, Router.get_job job_id w' = Response r ∧
       JobDetailResponse.download_url r
         = Some ("/api/v1/jobs/" +:+ pretty job_id +:+ "/download").
Proof.
  intros Hjob Hu Hc Hfault. cbn zeta.
  pose proof (completed_wants_zip _ _ Hc) as Hs.
  pose proof (bundle_archive_exists env fault job_id _ _ (fs w) Hs Hc Hfault) as Hz.
  rewrite (finalize_all_done _ _ _ _ _ Hjob Hu).
  unfold Router.download_job_result, Router.get_job. cbn [fst snd db fs].
  rewrite get_job_update_job, Hjob by done. cbn [fmap option_fmap option_map].
  cbn [Job.status Job.id Job.set_status]. rewrite (get_job_id _ _ _ Hjob).
  fold (output_zip_of env job_id). rewrite Hz.
  destruct (wants_zip_cases _ Hs) as [-> | ->]; cbn; split; try done; by eexists.
Qed.

Lemma download_after_finalize_witness :
  let w' := (finalize_job_task env0 (WriteFails 0) 1 w_mixed).1.1 in
  Router.download_job_result env0 1 w'
    = Response (mkFileResponse (output_zip_of env0 1)
                  ("job_" +:+ pretty 1 +:+ "_converted.zip") "application/zip") ∧
  ∃ r, Router.get_job 1 w' = Response r ∧
       JobDetailResponse.download_url r = Some ("/api/v1/jobs/" +:+ pretty 1 +:+ "/download").
Proof.
  apply (download_after_finalize env0 (WriteFails 0) 1 w_mixed
           (Job.mk 1 JobStatus.PROCESSING 1700000000));
    [reflexivity | reflexivity | vm_compute; discriminate | discriminate].
Defined.

(** X11. When all files of a job are terminal and at least one is COMPLETED,
    no archive is there yet and the finalizer cannot open one, the job is
    committed all the same: the status route then carries a download link
    and the download route answers 404 to it. *)
Theorem download_link_without_archive env job_id w job :
  get_job job_id (db w) = Some job →
  unfinished job_id (db w) = [] →
  with_status FileStatus.COMPLETED job_id (db w) ≠ [] →
  exists_ (output_zip_of env job_id) (fs w) = false →
  let w' := (finalize_job_task env OpenFails job_id w).1.1 in
  Router.download_job_result env job_id w' = HTTPException 404 "Result file not found" ∧
  ∃ r, Router.get_job job_id w' = Response r ∧
       JobDetailResponse.download_url r
         = Some ("/api/v1/jobs/" +:+ pretty job_id +:+ "/download").
Proof.
  intros Hjob Hu Hc Hz. cbn zeta.
  pose proof (completed_wants_zip _ _ Hc) as Hs.
  rewrite (finalize_all_done _ _ _ _ _ Hjob Hu).
  unfold Router.download_job_result, Router.get_job, bundle. rewrite Hs.
  destruct (with_status FileStatus.COMPLETED job_id (db w)) as [|f rest]; [done|].
  cbn [build_zip fst snd db fs].
  rewrite get_job_update_job, Hjob by done. cbn [fmap option_fmap option_map].
  cbn [Job.status Job.id Job.set_status]. rewrite (get_job_id _ _ _ Hjob).
  fold (output_zip_of env job_id). rewrite Hz.
  destruct (wants_zip_cases _ Hs) as [-> | ->]; cbn; split; try done; by eexists.
Qed.

Lemma download_link_without_archive_witness :
  let w' := (finalize_job_task env0 OpenFails 1 w_mixed).1.1 in
  Router.download_job_result env0 1 w' = HTTPException 404 "Result file not found" ∧
  ∃ r, Router.get_job 1 w' = Response r ∧
       JobDetailResponse.download_url r = Some ("/api/v1/jobs/" +:+ pretty 1 +:+ "/download").
Proof.
  apply (download_link_without_archive env0 1 w_mixed
           (Job.mk 1 JobStatus.PROCESSING 1700000000));
    [reflexivity | reflexivity | vm_compute; discriminate | reflexivity].
Defined.

(** X12. For a job with files, all of them FAILED, after the finalizer the
    download route answers 400, and the status route reports the job FAILED
    without a download link, with one entry per file of the job, each
    FAILED. *)
Theorem routes_after_all_failed env fault job_id w job :
  get_job job_id (db w) = Some job →
  files_of job_id (db w) ≠ [] →
  Forall (λ f, JobFile.status f = FileStatus.FAILED) (files_of job_id (db w)) →
  let w' := (finalize_job_task env fault job_id w).1.1 in
  Router.download_job_result env job_id w'
    = HTTPException 400 "Job is not ready for download" ∧
  ∃ r, Router.get_job job_id w' = Response r ∧
       JobDetailResponse.status r = JobStatus.FAILED ∧
       JobDetailResponse.download_url r = None ∧
       length (JobDetailResponse.files r) = length (files_of job_id (db w)) ∧
       Forall (λ e, JobFileResponse.status e = FileStatus.FAILED)
              (JobDetailResponse.files r).
Proof.
  intros Hjob Hne Hall. cbn zeta.
  rewrite (finalize_all_done _ _ _ _ _ Hjob (all_failed_unfinished _ _ Hall)).
  rewrite (all_failed_aggregate _ _ Hne Hall). cbn [bundle wants_zip].
  unfold Router.download_job_result, Router.get_job. cbn [fst db fs].
  rewrite get_job_update_job, Hjob by done. cbn. split; [done|].
  eexists. split; [done|]. cbn. rewrite (get_job_id _ _ _ Hjob).
  change (files_of job_id (update_job _ _ (db w))) with (files_of job_id (db w)).
  rewrite length_fmap. repeat split. by apply Forall_fmap.
Qed.

Lemma routes_after_all_failed_witness :
  let w := world_of JobStatus.PROCESSING
             [file_a FileStatus.FAILED (Some "x"); file_b FileStatus.FAILED (Some "y")] in
  let w' := (finalize_job_task env0 NoFault 1 w).1.1 in
  Router.download_job_result env0 1 w'
    = HTTPException 400 "Job is not ready for download" ∧
  ∃ r, Router.get_job 1 w' = Response r ∧
       JobDetailResponse.status r = JobStatus.FAILED ∧
       JobDetailResponse.download_url r = None ∧
       length (JobDetailResponse.files r) = length (files_of 1 (db w)) ∧
       Forall (λ e, JobFileResponse.status e = FileStatus.FAILED)
              (JobDetailResponse.files r).
Proof.
  apply (routes_after_all_failed env0 NoFault 1
           (world_of JobStatus.PROCESSING
              [file_a FileStatus.FAILED (Some "x"); file_b FileStatus.FAILED (Some "y")])
           (Job.mk 1 JobStatus.PROCESSING 1700000000)).
  - reflexivity.
  - vm_compute. discriminate.
  - apply (bool_decide_unpack _). vm_compute. exact I.
Defined.

(** * Jobs do not interfere *)

Lemma filter_worker_row (P : JobFile.t → Prop) `{∀ x, Decision (P x)}
    file_id (g : JobFile.t → JobFile.t) job_id (l : list JobFile.t) :
  (∀ r, P r → JobFile.job_id r = job_id) →
  (∀ r, JobFile.job_id (g r) = JobFile.job_id r) →
  (∀ r, r ∈ l → JobFile.id r = file_id → JobFile.job_id r ≠ job_id) →
  filter P (worker_row file_id g <$> l) = filter P l.
Proof.
  intros HP Hg. induction l as [|a l IH]; intros Hl; [done|].
  rewrite fmap_cons, !filter_cons, IH
    by (intros r Hr; apply Hl; by apply list_elem_of_further).
  unfold worker_row. case_bool_decide as Hid; [|done].
  assert (JobFile.job_id a ≠ job_id) as Hne by (apply Hl; [apply list_elem_of_here | done]).
  rewrite !decide_False; [done | | ].
  - intros Ha. by apply Hne, HP.
  - intros Ha. apply Hne. rewrite <- Hg. by apply HP.
Qed.

(** X13. With unique file keys, a run of the worker on a file of one job
    leaves the files of every other job as they are, and with them what
    the finalizer would find and decide for that job. *)
Theorem convert_other_jobs env run file_id w f job_id :
  NoDup (JobFile.id <$> job_files (db w)) →
  get_file file_id (db w) = Some f →
  job_id ≠ JobFile.job_id f →
  let d' := db (convert_file_task env run file_id w).1.1 in
  files_of job_id d' = files_of job_id (db w) ∧
  unfinished job_id d' = unfinished job_id (db w) ∧
  aggregate_of job_id d' = aggregate_of job_id (db w).
Proof.
  intros Hpk Hf Hne. cbn zeta.
  destruct (convert_tables env run file_id w f Hf) as (_ & g & Hg & Hfiles).
  cbn zeta in Hfiles.
  assert (∀ r, r ∈ job_files (db w) → JobFile.id r = file_id → JobFile.job_id r ≠ job_id)
    as Hrows.
  { intros r Hr Hid E. apply Hne. rewrite <- E. f_equal.
    apply (NoDup_fmap_same JobFile.id (job_files (db w))); try done.
    - by eapply get_file_elem.
    - by rewrite Hid, (get_file_id _ _ _ Hf). }
  assert (∀ r, JobFile.job_id (g r) = JobFile.job_id r) as Hgj by (intros r; apply Hg).
  unfold aggregate_of, files_of, unfinished, with_status. rewrite Hfiles.
  rewrite !(filter_worker_row _ file_id g job_id); try done; by intros r [? _].
Qed.

Lemma convert_other_jobs_witness :
  let d' := db (convert_file_task env0 run_timeout 10 w_fresh).1.1 in
  files_of 2 d' = files_of 2 (db w_fresh) ∧
  unfinished 2 d' = unfinished 2 (db w_fresh) ∧
  aggregate_of 2 d' = aggregate_of 2 (db w_fresh).
Proof.
  apply (convert_other_jobs env0 run_timeout 10 w_fresh (file_a FileStatus.PENDING None) 2).
  - apply (bool_decide_unpack _). vm_compute. exact I.
  - reflexivity.
  - discriminate.
Defined.

Lemma update_job_comm j1 j2 s1 s2 d :
  j1 ≠ j2 →
  update_job j1 (Job.set_status s1) (update_job j2 (Job.set_status s2) d)
  = update_job j2 (Job.set_status s2) (update_job j1 (Job.set_status s1) d).
Proof.
  intros Hne. unfold update_job. cbn [jobs job_files]. f_equal.
  rewrite <- !list_fmap_compose. apply list_fmap_ext. intros _ x _. cbn.
  destruct (bool_decide (Job.id x = j2)) eqn:E2;
    destruct (bool_decide (Job.id x = j1)) eqn:E1; cbn; rewrite ?E1, ?E2; try done.
  apply bool_decide_eq_true in E1, E2. congruence.
Qed.

Lemma db_after_update_other j1 j2 s d :
  j1 ≠ j2 →
  db_after j1 (update_job j2 (Job.set_status s) d)
  = update_job j2 (Job.set_status s) (db_after j1 d).
Proof.
  intros Hne. unfold db_after. rewrite get_job_update_job_ne by done.
  change (unfinished j1 (update_job j2 _ d)) with (unfinished j1 d).
  change (aggregate_of j1 (update_job j2 _ d)) with (aggregate_of j1 d).
  destruct (get_job j1 d); [|done]. destruct (decide _); [|done].
  by apply update_job_comm.
Qed.

(** X14. Two calls of the finalizer, for the same job or for two jobs, leave
    the same tables in either order, whatever happens to the archives. *)
Theorem finalize_order env j1 j2 fault1 fault2 fault1' fault2' w :
  db (finalize_job_task env fault1 j1 (finalize_job_task env fault2 j2 w).1.1).1.1
  = db (finalize_job_task env fault2' j2 (finalize_job_task env fault1' j1 w).1.1).1.1.
Proof.
  rewrite !finalize_db. generalize (db w). intros d.
  destruct (decide (j1 = j2)) as [->|Hne]; [done|].
  unfold db_after at 2 4.
  destruct (get_job j2 d) as [job2|] eqn:H2; destruct (get_job j1 d) as [job1|] eqn:H1.
  - destruct (decide (unfinished j2 d = [])) as [U2|U2];
      destruct (decide (unfinished j1 d = [])) as [U1|U1].
    + rewrite !db_after_update_other by done. unfold db_after.
      rewrite H1, H2, !decide_True by done. by apply update_job_comm.
    + rewrite db_after_update_other by done. unfold db_after.
      by rewrite H1, H2, decide_False, decide_True.
    + rewrite db_after_update_other by done. unfold db_after.
      by rewrite H1, H2, decide_True, decide_False.
    + unfold db_after. by rewrite H1, H2, !decide_False.
  - destruct (decide (unfinished j2 d = [])) as [U2|U2].
    + rewrite db_after_update_other by done. unfold db_after.
      by rewrite H1, H2, decide_True.
    + unfold db_after. by rewrite H1, H2, decide_False.
  - destruct (decide (unfinished j1 d = [])) as [U1|U1].
    + rewrite db_after_update_other by done. unfold db_after.
      by rewrite H1, H2, decide_True.
    + unfold db_after. by rewrite H1, H2, decide_False.
  - unfold db_after. by rewrite H1, H2.
Qed.

(** * What a run of the worker does to the outside *)

(** X15. A run of the worker either only logs (unknown file: nothing else;
    input missing: one error), or it runs the converter exactly once, with
    a timeout of 60, logs once and enqueues the finalizer once, for the job
    of the file and for no other. *)
Theorem convert_effects env run file_id w :
  let ev := (convert_file_task env run file_id w).1.2 in
  ev = [Log ERROR] ∨
  ∃ f lvl, get_file file_id (db w) = Some f ∧
           exists_ (input_path_of env f) (fs w) = true ∧
           ev = [Run (libreoffice_argv env f) 60; Log lvl; Delay (JobFile.job_id f)].
Proof.
  cbn zeta. destruct (get_file file_id (db w)) as [f|] eqn:Hf.
  - destruct (exists_ (input_path_of env f) (fs w)) eqn:Hin.
    + right. rewrite (convert_input_present _ _ _ _ _ Hf Hin). cbn [fst snd].
      by eexists _, _.
    + left. by rewrite (convert_input_missing _ _ _ _ _ Hf Hin).
  - left. by rewrite convert_not_found.
Qed.

(** * Finalizers that race *)

Lemma fin_step_race env fault job_id d0 job0 pc w :
  get_job job_id d0 = Some job0 →
  unfinished job_id d0 = [] →
  let d1 := update_job job_id (Job.set_status (aggregate_of job_id d0)) d0 in
  (db w = d0 ∨ db w = d1) →
  pc_agrees job_id d0 pc →
  let r := fin_step env fault job_id pc w in
  (db r.1.2 = d0 ∨ db r.1.2 = d1) ∧
  pc_agrees job_id d0 r.1.1 ∧
  (db w = d1 → db r.1.2 = d1) ∧
  (r.1.1 = Returned None → pc = Returned None ∨ db r.1.2 = d1).
Proof.
  intros Hjob Hu d1 Hw Hpc. cbn zeta.
  assert (∃ job, get_job job_id (db w) = Some job) as [job Hjobw].
  { destruct Hw as [-> | ->]; [by eauto|]. subst d1.
    rewrite get_job_update_job, Hjob by done. by eauto. }
  assert (job_files (db w) = job_files d0) as Hfiles by (by destruct Hw as [-> | ->]).
  assert (unfinished job_id (db w) = []) as Huw.
  { unfold unfinished. by rewrite Hfiles. }
  destruct pc as [|job'|job'|job' k|job' s|job' s cf|job' s|ret]; cbn [fin_step pc_agrees] in *.
  - rewrite Hjobw. cbn. repeat split; try done. by eapply get_job_id.
  - rewrite Huw. cbn. repeat split; done.
  - cbn. repeat split; try done. unfold with_status. by rewrite Hfiles.
  - destruct Hpc as [Hid ->]. cbn. repeat split; try done.
    unfold aggregate_of, files_of. by rewrite Hid, Hfiles.
  - destruct Hpc as [Hid Hs]. destruct (wants_zip s); cbn; repeat split; done.
  - destruct Hpc as [Hid Hs]. destruct cf as [|f rest]; [cbn; repeat split; done|].
    destruct (build_zip _ _ _ _ _) as [[fs' ev] raised]. cbn. repeat split; done.
  - destruct Hpc as [Hid ->]. cbn [fst snd db]. rewrite Hid.
    assert (update_job job_id (Job.set_status (aggregate_of job_id d0)) (db w) = d1) as ->.
    { destruct Hw as [-> | ->]; [done | apply update_job_twice]. }
    repeat split; try done; by right.
  - cbn. repeat split; try done. intros [= ->]. by left.
Qed.

Lemma interleave_race env job_id d0 job0 schedule pool w :
  get_job job_id d0 = Some job0 →
  unfinished job_id d0 = [] →
  let d1 := update_job job_id (Job.set_status (aggregate_of job_id d0)) d0 in
  (db w = d0 ∨ db w = d1) →
  Forall (λ p, pc_agrees job_id d0 p.2) pool →
  (committed pool → db w = d1) →
  let r := interleave env job_id schedule pool w in
  (db r.2 = d0 ∨ db r.2 = d1) ∧ (committed r.1 → db r.2 = d1).
Proof.
  intros Hjob Hu d1. revert pool w.
  induction schedule as [|i rest IH]; intros pool w Hw Hpool Hc; [done|].
  cbn [interleave]. destruct (pool !! i) as [[fault pc]|] eqn:Hi; [|by apply IH].
  pose proof (Forall_lookup_1 _ _ _ _ Hpool Hi) as Hpc. cbn in Hpc.
  destruct (fin_step_race env fault job_id d0 job0 pc w Hjob Hu Hw Hpc)
    as (Hw' & Hpc' & Hkeep & Hret).
  destruct (fin_step env fault job_id pc w) as [[pc' w'] ev]. cbn [fst snd] in *.
  apply IH; [done | by apply Forall_insert |].
  intros (k & fault' & Hk).
  destruct (decide (k = i)) as [->|Hne].
  - rewrite list_lookup_insert_eq in Hk by (by eapply lookup_lt_Some).
    injection Hk as _ ->. destruct (Hret eq_refl) as [-> | ?]; [|done].
    apply Hkeep, Hc. by exists i, fault.
  - rewrite list_lookup_insert_ne in Hk by done. apply Hkeep, Hc. by exists k, fault'.
Qed.

(** X16. Let all files of a job be terminal, and let any number of
    invocations of the finalizer for this job run at once, their store
    accesses interleaved in any way, with or without failures on the
    archive.  At every moment the tables are the ones from before or
    differ from them in the status of this job alone, which is then the
    one status the files add up to; and once any invocation has returned
    from its commit the job holds that status, whatever the others still
    do. *)
Theorem finalizers_race env job_id w job faults schedule :
  get_job job_id (db w) = Some job →
  unfinished job_id (db w) = [] →
  let d1 := update_job job_id (Job.set_status (aggregate_of job_id (db w))) (db w) in
  let r := interleave env job_id schedule (start_pool faults) w in
  (db r.2 = db w ∨ db r.2 = d1) ∧
  (committed r.1 → db r.2 = d1) ∧
  Job.status <$> get_job job_id d1 = Some (aggregate_of job_id (db w)).
Proof.
  intros Hjob Hu. cbn zeta.
  destruct (interleave_race env job_id (db w) job schedule (start_pool faults) w Hjob Hu)
    as [H1 H2].
  - by left.
  - unfold start_pool. by apply Forall_fmap, Forall_true.
  - intros (i & fault & Hi). unfold start_pool in Hi.
    rewrite list_lookup_fmap in Hi. by destruct (faults !! i).
  - split; [exact H1|]. split; [exact H2|].
    rewrite get_job_update_job, Hjob by done. done.
Qed.

Lemma finalizers_race_witness :
  let d1 := update_job 1 (Job.set_status (aggregate_of 1 (db w_mixed))) (db w_mixed) in
  let r := interleave env0 1 [0; 1; 0; 1; 1; 0; 0; 1; 0; 1; 0; 1; 0; 1]%nat
             (start_pool [NoFault; WriteFails 0]) w_mixed in
  (db r.2 = db w_mixed ∨ db r.2 = d1) ∧
  (committed r.1 → db r.2 = d1) ∧
  Job.status <$> get_job 1 d1 = Some (aggregate_of 1 (db w_mixed)).
Proof.
  apply (finalizers_race env0 1 w_mixed (Job.mk 1 JobStatus.PROCESSING 1700000000)
           [NoFault; WriteFails 0] [0; 1; 0; 1; 1; 0; 0; 1; 0; 1; 0; 1; 0; 1]%nat);
    reflexivity.
Defined.

Example finalizers_race_sample :
  let r := interleave env0 1 [0; 1; 0; 1; 1; 0; 0; 1; 0; 1; 0; 1; 0; 1]%nat
             (start_pool [NoFault; WriteFails 0]) w_mixed in
  r.1 = [(NoFault, Returned None); (WriteFails 0, Returned None)] ∧
  Job.status <$> get_job 1 (db r.2) = Some JobStatus.PARTIAL_SUCCESS.
Proof. split; reflexivity. Qed.
